(** * AutoMate AI: inference gateway, history store and session controller

    A shallow embedding of
    - [src/services/geminiService.ts] ([analyzeScreenImage]),
    - the storage service ([saveGuideToHistory], [getHistory], [clearHistory])
      and the type declarations that accompany it,
    - [src/App.tsx] (the handlers of the [App] component and its auto-scan
      effect),
    followed by the properties established for them.

    Modelling conventions.
    - JavaScript values that travel through [JSON.parse] / [JSON.stringify]
      are values of [Json].  Numbers are integers ([Z]): the response schema
      declares [relevanceScore] and [stepNumber] as INTEGER and [Date.now()]
      is an integer; fractional numbers, infinities and precision loss above
      2^53 are outside the model.
    - A string that is handed to [JSON.parse] is represented by what
      [JSON.parse] does with it ([JsonText]): it either is not JSON, or it
      denotes a value.  [JSON.stringify v] is the text that denotes [v].
    - An exception is [None] in the option monad; every [try]/[catch] of the
      source is a [default] or a [match] on that option.
    - The [App] component is a record of its [useState] cells.  An event
      handler runs atomically on the state of the last render; a handler
      that awaits the gateway leaves a [Task] in the list of pending calls,
      and the settlement of that call is an event of its own which runs the
      rest of the handler with the values the closure captured. *)

From Stdlib Require Import ZArith Lia DecimalString.
From stdpp Require Import base option list sorting strings gmap.

Local Set Warnings "-register-all,-clear-no-such-hyp".
Local Open Scope string_scope.
Local Open Scope list_scope.
Local Open Scope Z_scope.
Local Open Scope nat_scope.

(** ** JSON values *)

Inductive Json : Type :=
| JNull
| JBool (b : bool)
| JNum (n : Z)
| JStr (s : string)
| JArr (items : list Json)
| JObj (fields : list (string * Json)).

(** A string given to [JSON.parse]: [Malformed raw] makes it throw a
    SyntaxError (the empty string is [Malformed EmptyString]), [WellFormed v] makes
    it return [v]. *)
Inductive JsonText : Type :=
| Malformed (raw : string)
| WellFormed (v : Json).

Definition JSON_parse (t : JsonText) : option Json :=
  match t with
  | Malformed _ => None
  | WellFormed v => Some v
  end.

Definition JSON_stringify (v : Json) : JsonText := WellFormed v.

(** JavaScript truthiness of a string: only the empty string is falsy. *)
Definition truthy (t : JsonText) : bool :=
  match t with
  | Malformed EmptyString => false
  | _ => true
  end.

(** The elements of [v] when it is an array.  Calling an array method
    ([sort], [unshift]) on any other JSON value throws a TypeError. *)
Definition as_array (v : Json) : option (list Json) :=
  match v with
  | JArr items => Some items
  | _ => None
  end.

(** Own property [k] of an object, first binding. *)
Fixpoint assoc (k : string) (fields : list (string * Json)) : option Json :=
  match fields with
  | [] => None
  | (k', v) :: rest => if String.eqb k k' then Some v else assoc k rest
  end.

Definition field (k : string) (v : Json) : option Json :=
  match v with
  | JObj fields => assoc k fields
  | _ => None
  end.

(** ** The declared types (AutomationSuggestion, GuideStep, DetailedGuide,
    HistoryItem, AppState) *)

Record AutomationSuggestion : Type := {
  sug_id : string;
  sug_title : string;
  estimatedTimeSavings : string;
  tools : list string;
  description : string;
  relevanceScore : Z
}.

Record GuideStep : Type := {
  stepNumber : Z;
  instruction : string;
  selectorDescription : option string;
  codeSnippet : option string;
  tip : option string
}.

Record DetailedGuide : Type := {
  suggestionId : string;
  guide_title : string;
  prerequisites : list string;
  steps : list GuideStep
}.

Record HistoryItem : Type := {
  item_id : string;
  guide : DetailedGuide;
  timestamp : Z
}.

Inductive AppState : Type :=
| IDLE
| RECORDING
| ANALYZING
| SUGGESTING
| VIEWING_GUIDE
| GUIDE_LOADING
| HISTORY.

Global Instance AppState_eq_dec : EqDecision AppState.
Proof. solve_decision. Defined.

(** *** The JavaScript object behind a value of a declared type

    A property declared optional ([selectorDescription?], [codeSnippet?],
    [tip?]) is an own property of the object exactly when it is present. *)

Definition optional (k : string) (o : option string) : list (string * Json) :=
  match o with
  | Some s => [(k, JStr s)]
  | None => []
  end.

Definition strings_to_json (l : list string) : Json := JArr (JStr <$> l).

Definition AutomationSuggestion_to_json (s : AutomationSuggestion) : Json :=
  JObj [("id", JStr (sug_id s));
        ("title", JStr (sug_title s));
        ("estimatedTimeSavings", JStr (estimatedTimeSavings s));
        ("tools", strings_to_json (tools s));
        ("description", JStr (description s));
        ("relevanceScore", JNum (relevanceScore s))].

Definition GuideStep_to_json (s : GuideStep) : Json :=
  JObj ([("stepNumber", JNum (stepNumber s));
         ("instruction", JStr (instruction s))]
        ++ optional "selectorDescription" (selectorDescription s)
        ++ optional "codeSnippet" (codeSnippet s)
        ++ optional "tip" (tip s)).

Definition DetailedGuide_to_json (g : DetailedGuide) : Json :=
  JObj [("suggestionId", JStr (suggestionId g));
        ("title", JStr (guide_title g));
        ("prerequisites", strings_to_json (prerequisites g));
        ("steps", JArr (GuideStep_to_json <$> steps g))].

(** *** Reading a JSON value at a declared type

    The casts of the source ([as AutomationSuggestion[]], [as DetailedGuide])
    check nothing.  These readers say when a JSON value has the shape an
    interface declares, and which typed value it then is. *)

Definition as_string (v : Json) : option string :=
  match v with JStr s => Some s | _ => None end.

Definition as_number (v : Json) : option Z :=
  match v with JNum n => Some n | _ => None end.

Definition as_strings (v : Json) : option (list string) :=
  items ← as_array v; mapM as_string items.

(** An optional string property: absent, or present with a string. *)
Definition optional_string (k : string) (v : Json) : option (option string) :=
  match field k v with
  | None => Some None
  | Some (JStr s) => Some (Some s)
  | Some _ => None
  end.

Definition AutomationSuggestion_of_json (v : Json) : option AutomationSuggestion :=
  i ← field "id" v ≫= as_string;
  t ← field "title" v ≫= as_string;
  e ← field "estimatedTimeSavings" v ≫= as_string;
  ts ← field "tools" v ≫= as_strings;
  d ← field "description" v ≫= as_string;
  r ← field "relevanceScore" v ≫= as_number;
  Some {| sug_id := i; sug_title := t; estimatedTimeSavings := e;
          tools := ts; description := d; relevanceScore := r |}.

Definition GuideStep_of_json (v : Json) : option GuideStep :=
  n ← field "stepNumber" v ≫= as_number;
  i ← field "instruction" v ≫= as_string;
  sd ← optional_string "selectorDescription" v;
  cs ← optional_string "codeSnippet" v;
  tp ← optional_string "tip" v;
  Some {| stepNumber := n; instruction := i; selectorDescription := sd;
          codeSnippet := cs; tip := tp |}.

Definition DetailedGuide_of_json (v : Json) : option DetailedGuide :=
  sid ← field "suggestionId" v ≫= as_string;
  t ← field "title" v ≫= as_string;
  ps ← field "prerequisites" v ≫= as_strings;
  items ← field "steps" v ≫= as_array;
  ss ← mapM GuideStep_of_json items;
  Some {| suggestionId := sid; guide_title := t; prerequisites := ps; steps := ss |}.

Definition HistoryItem_of_json (v : Json) : option HistoryItem :=
  i ← field "id" v ≫= as_string;
  g ← field "guide" v ≫= DetailedGuide_of_json;
  ts ← field "timestamp" v ≫= as_number;
  Some {| item_id := i; guide := g; timestamp := ts |}.

(** The expected shape of an analyze response: an array of suggestions. *)
Definition suggestions_of_json (v : Json) : option (list AutomationSuggestion) :=
  items ← as_array v; mapM AutomationSuggestion_of_json items.

(** ** Array.prototype.sort

    The sort of ECMAScript is stable, calls [comparefn x y] to order two
    elements and propagates an exception of [comparefn].  A result below
    zero puts [x] before [y], a result above zero puts [y] before [x], and
    zero or NaN leaves them in their original order.  For a consistent
    comparator the sorted array is thereby determined, and the stable
    insertion sort below computes it; for an inconsistent comparator the
    order is left to the engine and this model is one admissible choice. *)

Inductive Number : Type :=
| NaN
| Num (n : Z).

Section Array_sort.
Context {A : Type} (comparefn : A → A → option Number).

Definition keeps_order (v : Number) : bool :=
  match v with
  | NaN => true
  | Num n => (n <=? 0)%Z
  end.

Fixpoint sort_insert (x : A) (sorted : list A) : option (list A) :=
  match sorted with
  | [] => Some [x]
  | y :: rest =>
      v ← comparefn x y;
      if keeps_order v then Some (x :: y :: rest)
      else cons y <$> sort_insert x rest
  end.

Fixpoint Array_sort (l : list A) : option (list A) :=
  match l with
  | [] => Some []
  | x :: rest => sorted ← Array_sort rest; sort_insert x sorted
  end.
End Array_sort.

(** ** geminiService.ts: analyzeScreenImage *)

(** [response.text] of the gateway client: undefined, or a string. *)
Record GenerateContentResponse : Type := {
  text : option JsonText
}.

Section analyzeScreenImage.
(** ToNumber of ECMAScript on a string, an array or an object
    (StringToNumber, ToPrimitive).  It is a parameter: no property below
    depends on it, and a well-shaped suggestion never reaches it.  [None]
    is a thrown TypeError. *)
Variable ToNumber_other : Json → option Number.

(** ToNumber on the value of a property; [None] as argument is
    [undefined]. *)
Definition ToNumber (v : option Json) : option Number :=
  match v with
  | None => Some NaN
  | Some JNull => Some (Num 0)
  | Some (JBool b) => Some (Num (if b then 1 else 0))
  | Some (JNum n) => Some (Num n)
  | Some other => ToNumber_other other
  end.

(** [x.relevanceScore]: a TypeError on [null], otherwise the own property
    or [undefined]. *)
Definition get_relevanceScore (x : Json) : option (option Json) :=
  match x with
  | JNull => None
  | _ => Some (field "relevanceScore" x)
  end.

Definition subtract (l r : option Json) : option Number :=
  x ← ToNumber l;
  y ← ToNumber r;
  Some (match x, y with
        | Num a, Num b => Num (a - b)
        | _, _ => NaN
        end).

(** [(a, b) => b.relevanceScore - a.relevanceScore] *)
Definition by_relevance (a b : Json) : option Number :=
  sb ← get_relevanceScore b;
  sa ← get_relevanceScore a;
  subtract sb sa.

Definition analyzeScreenImage (response : GenerateContentResponse) : list Json :=
  match text response with
  | None => []
  | Some t =>
      if negb (truthy t) then []
      else
        default []
          (suggestions ← JSON_parse t;
           items ← as_array suggestions;
           Array_sort by_relevance items)
  end.
End analyzeScreenImage.

(** The comparator [(a, b) => key(b) - key(a)] on values whose key is a
    number, and the order it sorts into. *)
Definition descending {A : Type} (key : A → Z) (a b : A) : option Number :=
  Some (Num (key b - key a)).

Definition not_below {A : Type} (key : A → Z) (a b : A) : Prop :=
  (key b ≤ key a)%Z.

(** A response that carries no array: no text, an empty text, a text that
    is not JSON, or the text of a JSON value other than an array. *)
Definition carries_no_array (r : GenerateContentResponse) : Prop :=
  match text r with
  | None => True
  | Some t =>
      match JSON_parse t with
      | None => True
      | Some v => as_array v = None
      end
  end.

(** A response that is empty or does not have the expected shape, an array
    of suggestions. *)
Definition not_a_suggestion_array (r : GenerateContentResponse) : Prop :=
  match text r with
  | None => True
  | Some t =>
      match JSON_parse t with
      | None => True
      | Some v => suggestions_of_json v = None
      end
  end.

(** The response whose text denotes [v]. *)
Definition response_of (v : Json) : GenerateContentResponse :=
  {| text := Some (JSON_stringify v) |}.

(** A suggestion with a given id and score, for examples. *)
Definition suggestion (i : string) (score : Z) : AutomationSuggestion :=
  {| sug_id := i; sug_title := "Fill the form from the sheet";
     estimatedTimeSavings := "2 hours/week"; tools := ["Python"; "Selenium"];
     description := "Copies each row of the sheet into the web form.";
     relevanceScore := score |}.

(** ** storageService.ts

    [localStorage] is a finite map from keys to strings; [crypto.randomUUID()]
    and [Date.now()] are supplied by the caller as [uuid] and [now].  The
    store is taken to have room for the write ([setItem] does not throw). *)

Definition STORAGE_KEY : string := "automate_ai_history".

(** [existing ? JSON.parse(existing) : []], as both [saveGuideToHistory]
    and [getHistory] write it. *)
Definition parse_existing (existing : option JsonText) : option Json :=
  match existing with
  | Some t => if truthy t then JSON_parse t else Some (JArr [])
  | None => Some (JArr [])
  end.

Definition newItem (uuid : string) (now : Z) (guide : Json) : Json :=
  JObj [("id", JStr uuid); ("guide", guide); ("timestamp", JNum now)].

Definition saveGuideToHistory (uuid : string) (now : Z) (guide : Json)
    (localStorage : gmap string JsonText) : gmap string JsonText :=
  default localStorage
    (history ← parse_existing (localStorage !! STORAGE_KEY);
     items ← as_array history;
     let history := newItem uuid now guide :: items in
     let history :=
       if decide (50 < length history) then take 50 history else history in
     Some (<[STORAGE_KEY := JSON_stringify (JArr history)]> localStorage)).

Definition getHistory (localStorage : gmap string JsonText) : Json :=
  default (JArr []) (parse_existing (localStorage !! STORAGE_KEY)).

Definition clearHistory (localStorage : gmap string JsonText) : gmap string JsonText :=
  delete STORAGE_KEY localStorage.

(** One call of [saveGuideToHistory], with what the environment supplies. *)
Record SaveCall : Type := {
  call_uuid : string;
  call_now : Z;
  call_guide : DetailedGuide
}.

Definition save (c : SaveCall) (localStorage : gmap string JsonText)
    : gmap string JsonText :=
  saveGuideToHistory (call_uuid c) (call_now c)
    (DetailedGuide_to_json (call_guide c)) localStorage.

(** The record a call stores. *)
Definition saved_item (c : SaveCall) : HistoryItem :=
  {| item_id := call_uuid c; guide := call_guide c; timestamp := call_now c |}.

Definition HistoryItem_to_json (h : HistoryItem) : Json :=
  newItem (item_id h) (timestamp h) (DetailedGuide_to_json (guide h)).

(** The JSON record a call stores. *)
Definition stored (c : SaveCall) : Json := HistoryItem_to_json (saved_item c).

(** A guide whose steps use the optional fields differently, and a call
    that saves it at time [n], for examples. *)
Definition sample_guide : DetailedGuide :=
  {| suggestionId := "b"; guide_title := "Fill the form from the sheet";
     prerequisites := ["Python 3"];
     steps :=
       [{| stepNumber := 1; instruction := "Open the sheet";
           selectorDescription := Some "The green icon in the dock";
           codeSnippet := None; tip := None |};
        {| stepNumber := 2; instruction := "Run the script";
           selectorDescription := None;
           codeSnippet := Some "python fill.py";
           tip := Some "Close the form first" |}] |}.

Definition sample_call (n : nat) : SaveCall :=
  {| call_uuid := "record"; call_now := Z.of_nat n; call_guide := sample_guide |}.

(** Saving one guide after the other, the head of the list first. *)
Definition save_all (calls : list SaveCall) (localStorage : gmap string JsonText)
    : gmap string JsonText :=
  foldl (λ ls c, save c ls) localStorage calls.

(** The store holds a history: nothing yet, or the text of an array. *)
Definition holds_history (localStorage : gmap string JsonText) (items : list Json) : Prop :=
  parse_existing (localStorage !! STORAGE_KEY) = Some (JArr items).

(** ** App.tsx: the state of the component *)

Record Session : Type := {
  appState : AppState;
  stream : option nat;
  suggestions : list AutomationSuggestion;
  selectedGuide : option DetailedGuide;
  errorMsg : option string;
  lastImage : option string;
  previousState : AppState;
  isAutoScan : bool;
  isAnalyzing : bool
}.

(** A handler suspended at an [await]. *)
Inductive Task : Type :=
| AwaitDisplayMedia (autoStart : bool)
    (* startScreenShare at getDisplayMedia *)
| AwaitAnalyze (isAuto : bool) (appState0 : AppState) (base64Image : string)
    (* captureAndAnalyze at analyzeScreenImage; [appState0] is the
       [appState] of the closure *)
| AwaitAutoGuide (bestSuggestion : AutomationSuggestion) (base64Image : string)
    (* captureAndAnalyze at generateGuideForSuggestion *)
| AwaitGuide (suggestion : AutomationSuggestion) (image : string).
    (* handleSelectSuggestion at generateGuideForSuggestion *)

(** The component together with what it acts on: the calls it awaits, the
    browser's [localStorage], and the capture streams whose tracks are
    running. *)
Record World : Type := {
  ui : Session;
  pending : list Task;
  localStorage : gmap string JsonText;
  liveTracks : gset nat
}.

Definition upd (f : Session → Session) (w : World) : World :=
  {| ui := f (ui w); pending := pending w;
     localStorage := localStorage w; liveTracks := liveTracks w |}.

Definition setAppState (v : AppState) : World → World :=
  upd (λ s, {| appState := v; stream := stream s; suggestions := suggestions s;
               selectedGuide := selectedGuide s; errorMsg := errorMsg s;
               lastImage := lastImage s; previousState := previousState s;
               isAutoScan := isAutoScan s; isAnalyzing := isAnalyzing s |}).

Definition setStream (v : option nat) : World → World :=
  upd (λ s, {| appState := appState s; stream := v; suggestions := suggestions s;
               selectedGuide := selectedGuide s; errorMsg := errorMsg s;
               lastImage := lastImage s; previousState := previousState s;
               isAutoScan := isAutoScan s; isAnalyzing := isAnalyzing s |}).

Definition setSuggestions (v : list AutomationSuggestion) : World → World :=
  upd (λ s, {| appState := appState s; stream := stream s; suggestions := v;
               selectedGuide := selectedGuide s; errorMsg := errorMsg s;
               lastImage := lastImage s; previousState := previousState s;
               isAutoScan := isAutoScan s; isAnalyzing := isAnalyzing s |}).

Definition setSelectedGuide (v : option DetailedGuide) : World → World :=
  upd (λ s, {| appState := appState s; stream := stream s; suggestions := suggestions s;
               selectedGuide := v; errorMsg := errorMsg s;
               lastImage := lastImage s; previousState := previousState s;
               isAutoScan := isAutoScan s; isAnalyzing := isAnalyzing s |}).

Definition setErrorMsg (v : option string) : World → World :=
  upd (λ s, {| appState := appState s; stream := stream s; suggestions := suggestions s;
               selectedGuide := selectedGuide s; errorMsg := v;
               lastImage := lastImage s; previousState := previousState s;
               isAutoScan := isAutoScan s; isAnalyzing := isAnalyzing s |}).

Definition setLastImage (v : option string) : World → World :=
  upd (λ s, {| appState := appState s; stream := stream s; suggestions := suggestions s;
               selectedGuide := selectedGuide s; errorMsg := errorMsg s;
               lastImage := v; previousState := previousState s;
               isAutoScan := isAutoScan s; isAnalyzing := isAnalyzing s |}).

Definition setPreviousState (v : AppState) : World → World :=
  upd (λ s, {| appState := appState s; stream := stream s; suggestions := suggestions s;
               selectedGuide := selectedGuide s; errorMsg := errorMsg s;
               lastImage := lastImage s; previousState := v;
               isAutoScan := isAutoScan s; isAnalyzing := isAnalyzing s |}).

Definition setIsAutoScan (v : bool) : World → World :=
  upd (λ s, {| appState := appState s; stream := stream s; suggestions := suggestions s;
               selectedGuide := selectedGuide s; errorMsg := errorMsg s;
               lastImage := lastImage s; previousState := previousState s;
               isAutoScan := v; isAnalyzing := isAnalyzing s |}).

Definition setIsAnalyzing (v : bool) : World → World :=
  upd (λ s, {| appState := appState s; stream := stream s; suggestions := suggestions s;
               selectedGuide := selectedGuide s; errorMsg := errorMsg s;
               lastImage := lastImage s; previousState := previousState s;
               isAutoScan := isAutoScan s; isAnalyzing := v |}).

(** [await]: the handler is parked until its call settles. *)
Definition await (t : Task) (w : World) : World :=
  {| ui := ui w; pending := pending w ++ [t];
     localStorage := localStorage w; liveTracks := liveTracks w |}.

(** The call at position [i] has settled. *)
Definition settled (i : nat) (w : World) : World :=
  {| ui := ui w; pending := delete i (pending w);
     localStorage := localStorage w; liveTracks := liveTracks w |}.

(** [stream.getTracks().forEach(track => track.stop())] *)
Definition stopTracks (h : nat) (w : World) : World :=
  {| ui := ui w; pending := pending w;
     localStorage := localStorage w; liveTracks := liveTracks w ∖ {[h]} |}.

Definition startTracks (h : nat) (w : World) : World :=
  {| ui := ui w; pending := pending w;
     localStorage := localStorage w; liveTracks := liveTracks w ∪ {[h]} |}.

(** [saveGuideToHistory(guide)] from the component. *)
Definition persist (uuid : string) (now : Z) (g : DetailedGuide) (w : World) : World :=
  {| ui := ui w; pending := pending w;
     localStorage :=
       saveGuideToHistory uuid now (DetailedGuide_to_json g) (localStorage w);
     liveTracks := liveTracks w |}.

(** [clearHistory()] from the history view. *)
Definition cleared (w : World) : World :=
  {| ui := ui w; pending := pending w;
     localStorage := clearHistory (localStorage w);
     liveTracks := liveTracks w |}.

Definition initialSession : Session :=
  {| appState := IDLE; stream := None; suggestions := [];
     selectedGuide := None; errorMsg := None; lastImage := None;
     previousState := IDLE; isAutoScan := false; isAnalyzing := false |}.

(** The component when it mounts; [localStorage] is what earlier visits
    left. *)
Definition initialWorld (ls : gmap string JsonText) : World :=
  {| ui := initialSession; pending := []; localStorage := ls; liveTracks := ∅ |}.

(** ** App.tsx: the handlers *)

(** The outcome of an awaited gateway call. *)
Inductive Settled (A : Type) : Type :=
| Resolved (a : A)
| Rejected.
Arguments Resolved {A} a.
Arguments Rejected {A}.

(** The error a rejected [getDisplayMedia] carries. *)
Record JsError : Type := {
  err_name : string;
  err_message : option string
}.

Inductive DisplayMedia : Type :=
| Granted (displayStream : nat)
| Refused (err : JsError).

(** [hay.includes(needle)] *)
Fixpoint includes (needle hay : string) : bool :=
  String.prefix needle hay ||
  match hay with
  | EmptyString => false
  | String _ rest => includes needle rest
  end.

(** The [catch] of startScreenShare. *)
Definition screenError (err : JsError) : string :=
  if String.eqb (err_name err) "NotAllowedError"
     || from_option (includes "Permission denied") false (err_message err)
  then "Permission denied. Please allow screen sharing when prompted, and check your System Settings (Privacy > Screen Recording) if on macOS."
  else if from_option (includes "permissions policy") false (err_message err)
  then "Screen sharing is blocked by the environment policy. Please check if 'display-capture' permission is enabled."
  else "Failed to access screen: " +:+
       match err_message err with
       | Some (String c m) => String c m
       | _ => "Unknown error"
       end.

Definition unsupported : JsError :=
  {| err_name := "Error";
     err_message := Some "Screen sharing is not supported in this browser/environment." |}.

(** startScreenShare up to its [await]; [supported] tells whether
    [navigator.mediaDevices.getDisplayMedia] exists. *)
Definition startScreenShare (autoStart supported : bool) (w : World) : World :=
  let w := setErrorMsg None w in
  if negb supported then setErrorMsg (Some (screenError unsupported)) w
  else await (AwaitDisplayMedia autoStart) w.

(** startScreenShare after its [await]. *)
Definition displayMediaSettled (autoStart : bool) (r : DisplayMedia) (w : World) : World :=
  match r with
  | Granted displayStream =>
      let w := startTracks displayStream w in
      let w := setStream (Some displayStream) w in
      let w := setAppState RECORDING w in
      setIsAutoScan autoStart w
  | Refused err => setErrorMsg (Some (screenError err)) w
  end.

Definition hasContent (s : Session) : bool :=
  bool_decide (0 < length (suggestions s))
  || bool_decide (is_Some (selectedGuide s))
  || bool_decide (appState s = HISTORY).

Definition handleStopStream (w : World) : World :=
  let s := ui w in
  let w := match stream s with
           | Some h => setStream None (stopTracks h w)
           | None => w
           end in
  let w := setIsAutoScan false w in
  if negb (hasContent s) then setAppState IDLE w
  else if bool_decide (appState s = RECORDING) || bool_decide (appState s = ANALYZING)
       then setAppState SUGGESTING w
       else w.

Definition handleReset (w : World) : World :=
  let s := ui w in
  let w := match stream s with
           | Some h => setStream None (stopTracks h w)
           | None => w
           end in
  let w := setIsAutoScan false w in
  let w := setAppState IDLE w in
  let w := setSuggestions [] w in
  let w := setSelectedGuide None w in
  setLastImage None w.

(** [videoRef.current] is set while the video element is rendered: the
    state is not IDLE and a stream is held.  The canvas is always
    rendered. *)
Definition videoMounted (s : Session) : bool :=
  bool_decide (appState s ≠ IDLE) && bool_decide (is_Some (stream s)).

(** captureAndAnalyze up to its first [await].  [frame] is the data URL of
    the frame drawn on the canvas, or [None] when the canvas gives no 2d
    context. *)
Definition captureAndAnalyze (isAuto : bool) (frame : option string) (w : World) : World :=
  let s := ui w in
  if negb (videoMounted s) then w
  else if isAnalyzing s then w
  else
    let w := setIsAnalyzing true w in
    let w := if negb isAuto then setAppState ANALYZING w else w in
    match frame with
    | None => setIsAnalyzing false w
    | Some base64Image =>
        let w := setLastImage (Some base64Image) w in
        await (AwaitAnalyze isAuto (appState s) base64Image) w
    end.

(** captureAndAnalyze from the moment analyzeScreenImage settles. *)
Definition analyzeSettled (isAuto : bool) (appState0 : AppState) (base64Image : string)
    (r : Settled (list AutomationSuggestion)) (w : World) : World :=
  match r with
  | Resolved results =>
      let w := setSuggestions results w in
      if negb isAuto then
        match results with
        | bestSuggestion :: _ =>
            let w := setAppState GUIDE_LOADING w in
            await (AwaitAutoGuide bestSuggestion base64Image) w
        | [] =>
            let w := setAppState SUGGESTING w in
            setIsAnalyzing false w
        end
      else
        let w :=
          if bool_decide (0 < length results)
             && (bool_decide (appState0 = RECORDING) || bool_decide (appState0 = SUGGESTING))
          then setAppState SUGGESTING w
          else w in
        setIsAnalyzing false w
  | Rejected =>
      let w :=
        if negb isAuto then
          let w := setErrorMsg (Some "AI Analysis failed. Please try again.") w in
          setAppState RECORDING w
        else w in
      setIsAnalyzing false w
  end.

(** captureAndAnalyze from the moment generateGuideForSuggestion settles. *)
Definition autoGuideSettled (r : Settled DetailedGuide) (uuid : string) (now : Z)
    (w : World) : World :=
  let w :=
    match r with
    | Resolved g =>
        let w := setSelectedGuide (Some g) w in
        let w := persist uuid now g w in
        setAppState VIEWING_GUIDE w
    | Rejected =>
        let w := setAppState SUGGESTING w in
        setErrorMsg
          (Some "Could not auto-generate guide. Please select a suggestion from the list.") w
    end in
  setIsAnalyzing false w.

(** handleSelectSuggestion up to its [await]. *)
Definition handleSelectSuggestion (suggestion : AutomationSuggestion) (w : World) : World :=
  match lastImage (ui w) with
  | Some (String c img) =>
      let w := setAppState GUIDE_LOADING w in
      await (AwaitGuide suggestion (String c img)) w
  | _ => w
  end.

(** handleSelectSuggestion after its [await]. *)
Definition guideSettled (r : Settled DetailedGuide) (uuid : string) (now : Z)
    (w : World) : World :=
  match r with
  | Resolved g =>
      let w := setSelectedGuide (Some g) w in
      let w := persist uuid now g w in
      setAppState VIEWING_GUIDE w
  | Rejected =>
      let w := setErrorMsg (Some "Could not generate guide. Please try again.") w in
      setAppState SUGGESTING w
  end.

Definition handleBackToSuggestions (w : World) : World :=
  let w := setAppState SUGGESTING w in
  setSelectedGuide None w.

Definition handleToggleHistory (w : World) : World :=
  let s := ui w in
  if bool_decide (appState s = HISTORY) then
    setAppState
      (if bool_decide (previousState s ≠ HISTORY) then previousState s else IDLE) w
  else
    let w := setPreviousState (appState s) w in
    setAppState HISTORY w.

Definition handleSelectHistoryGuide (g : DetailedGuide) (w : World) : World :=
  let w := setSelectedGuide (Some g) w in
  setAppState VIEWING_GUIDE w.

(** The auto-scan effect: the period in milliseconds of the interval it
    sets, or [None] when it sets none.  The effect is re-run, and the
    previous interval cleared, whenever one of its inputs changes. *)
Definition autoScanInterval (s : Session) : option Z :=
  if isAutoScan s
     && bool_decide (is_Some (stream s))
     && (bool_decide (appState s = RECORDING) || bool_decide (appState s = SUGGESTING))
  then Some 5000%Z
  else None.

(** ** App.tsx: what can happen to the component

    The user's clicks are those the rendered tree offers in the current
    state; a timer tick, the end of a track and the settlement of an awaited
    call come from the browser. *)

Inductive Event : Type :=
| ClickStart (autoStart supported : bool)       (* Manual Scan / Auto Scan on the start page *)
| ClickStop                                     (* Stop *)
| TrackEnded (h : nat)                          (* onended of a running track *)
| ClickNewScan                                  (* New Scan: handleReset *)
| ClickAuto                                     (* Auto: ON/OFF *)
| ClickScan (frame : option string)             (* Scan / Re-Scan *)
| TimerTick (frame : option string)             (* the auto-scan interval fires *)
| ClickSuggestion (i : nat)                     (* the i-th card *)
| ClickBack                                     (* onBack of the guide view *)
| ClickHistory                                  (* the history button, onClose *)
| ClickHistoryGuide (g : DetailedGuide)         (* onSelectGuide of the history view *)
| ClickClearHistory                             (* Clear, confirmed, in the history view *)
| DisplayMediaSettled (i : nat) (r : DisplayMedia)
| AnalyzeSettled (i : nat) (r : Settled (list AutomationSuggestion))
| GuideSettled (i : nat) (r : Settled DetailedGuide) (uuid : string) (now : Z).

(** The suggestion cards are rendered: the right panel is shown and it
    shows neither the history nor a guide. *)
Definition cardsShown (s : Session) : bool :=
  bool_decide (appState s = SUGGESTING)
  || bool_decide (appState s = GUIDE_LOADING)
  || (bool_decide (appState s = VIEWING_GUIDE) && negb (bool_decide (is_Some (selectedGuide s)))).

(** The action bar with Stop, Auto and Scan: beside the preview, while a
    stream is held. *)
Definition actionBarLive (s : Session) : bool :=
  bool_decide (appState s ≠ IDLE) && bool_decide (is_Some (stream s)).

(** The [disabled] attribute of the Scan button. *)
Definition scanDisabled (s : Session) : bool :=
  bool_decide (appState s = ANALYZING)
  || bool_decide (appState s = GUIDE_LOADING)
  || isAnalyzing s.

Definition enabled (e : Event) (w : World) : bool :=
  let s := ui w in
  match e with
  | ClickStart _ _ => bool_decide (appState s = IDLE)
  | ClickStop => actionBarLive s
  | TrackEnded h => bool_decide (h ∈ liveTracks w)
  | ClickNewScan => bool_decide (appState s ≠ IDLE) && negb (bool_decide (is_Some (stream s)))
  | ClickAuto => actionBarLive s
  | ClickScan _ => actionBarLive s && negb (scanDisabled s)
  | TimerTick _ => bool_decide (is_Some (autoScanInterval s))
  | ClickSuggestion i => cardsShown s && bool_decide (is_Some (suggestions s !! i))
  | ClickBack =>
      bool_decide (appState s = VIEWING_GUIDE) && bool_decide (is_Some (selectedGuide s))
  | ClickHistory => true
  | ClickHistoryGuide _ => bool_decide (appState s = HISTORY)
  | ClickClearHistory => bool_decide (appState s = HISTORY)
  | DisplayMediaSettled i r =>
      match pending w !! i, r with
      | Some (AwaitDisplayMedia _), Granted h => bool_decide (h ∉ liveTracks w)
      | Some (AwaitDisplayMedia _), Refused _ => true
      | _, _ => false
      end
  | AnalyzeSettled i _ =>
      match pending w !! i with
      | Some (AwaitAnalyze _ _ _) => true
      | _ => false
      end
  | GuideSettled i _ _ _ =>
      match pending w !! i with
      | Some (AwaitAutoGuide _ _) | Some (AwaitGuide _ _) => true
      | _ => false
      end
  end.

Definition react (e : Event) (w : World) : World :=
  match e with
  | ClickStart autoStart supported => startScreenShare autoStart supported w
  | ClickStop => handleStopStream w
  | TrackEnded h => handleStopStream (stopTracks h w)
  | ClickNewScan => handleReset w
  | ClickAuto => setIsAutoScan (negb (isAutoScan (ui w))) w
  | ClickScan frame => captureAndAnalyze false frame w
  | TimerTick frame => captureAndAnalyze true frame w
  | ClickSuggestion i =>
      match suggestions (ui w) !! i with
      | Some suggestion => handleSelectSuggestion suggestion w
      | None => w
      end
  | ClickBack => handleBackToSuggestions w
  | ClickHistory => handleToggleHistory w
  | ClickHistoryGuide g => handleSelectHistoryGuide g w
  | ClickClearHistory => cleared w
  | DisplayMediaSettled i r =>
      match pending w !! i with
      | Some (AwaitDisplayMedia autoStart) => displayMediaSettled autoStart r (settled i w)
      | _ => w
      end
  | AnalyzeSettled i r =>
      match pending w !! i with
      | Some (AwaitAnalyze isAuto appState0 base64Image) =>
          analyzeSettled isAuto appState0 base64Image r (settled i w)
      | _ => w
      end
  | GuideSettled i r uuid now =>
      match pending w !! i with
      | Some (AwaitAutoGuide _ _) => autoGuideSettled r uuid now (settled i w)
      | Some (AwaitGuide _ _) => guideSettled r uuid now (settled i w)
      | _ => w
      end
  end.

(** The worlds the component can be in. *)
Inductive reachable : World → Prop :=
| reachable_mount ls : reachable (initialWorld ls)
| reachable_react w e : reachable w → enabled e w = true → reachable (react e w).

(** Running a script of events, refusing one that is not enabled. *)
Fixpoint run (script : list Event) (w : World) : option World :=
  match script with
  | [] => Some w
  | e :: rest => if enabled e w then run rest (react e w) else None
  end.

(** A task of a scan: captureAndAnalyze awaiting analyzeScreenImage, or
    the elaboration the manual scan chains to it. *)
Definition isScanTask (t : Task) : bool :=
  match t with
  | AwaitAnalyze _ _ _ | AwaitAutoGuide _ _ => true
  | _ => false
  end.

(** A task that awaits the inference gateway (analyze or elaborate). *)
Definition isGatewayTask (t : Task) : bool :=
  match t with
  | AwaitAnalyze _ _ _ | AwaitAutoGuide _ _ | AwaitGuide _ _ => true
  | AwaitDisplayMedia _ => false
  end.

Definition count_tasks (p : Task → bool) (l : list Task) : nat :=
  length (filter (λ t, p t = true) l).

Definition scansOutstanding (w : World) : nat :=
  count_tasks isScanTask (pending w).

Definition gatewayCallsOutstanding (w : World) : nat :=
  count_tasks isGatewayTask (pending w).

(** The in-flight flag tells whether a scan is outstanding. *)
Definition flag_counts_scans (w : World) : Prop :=
  scansOutstanding w = (if isAnalyzing (ui w) then 1 else 0).

(** A guide is selected whenever the state is VIEWING_GUIDE, or is HISTORY
    opened from VIEWING_GUIDE. *)
Definition guide_is_selected (w : World) : Prop :=
  (appState (ui w) = VIEWING_GUIDE → is_Some (selectedGuide (ui w)))
  ∧ (appState (ui w) = HISTORY → previousState (ui w) = VIEWING_GUIDE →
     is_Some (selectedGuide (ui w))).

(** The world with the stream given up and auto-scan turned off, and
    nothing else changed. *)
Definition released (w : World) : World :=
  setIsAutoScan false
    (match stream (ui w) with
     | Some h => setStream None (stopTracks h w)
     | None => w
     end).

(** The world a script leads to from a freshly mounted component with an
    empty [localStorage]; the mounted component itself if the script
    cannot run. *)
Definition world_after (script : list Event) : World :=
  default (initialWorld ∅) (run script (initialWorld ∅)).

(** An auto scan is in flight and the user selects a suggestion. *)
Definition select_during_auto_scan : list Event :=
  [ClickStart true true;
   DisplayMediaSettled 0 (Granted 1);
   TimerTick (Some "frame 1");
   AnalyzeSettled 0 (Resolved [suggestion "a" 90]);
   TimerTick (Some "frame 2");
   ClickSuggestion 0].

(** The elaboration of a selected suggestion is in flight and the user
    scans again from the history view. *)
Definition scan_during_selected_elaboration : list Event :=
  [ClickStart false true;
   DisplayMediaSettled 0 (Granted 1);
   ClickScan (Some "frame 1");
   AnalyzeSettled 0 (Resolved [suggestion "a" 90]);
   GuideSettled 0 Rejected "uuid 1" 1%Z;
   ClickSuggestion 0;
   ClickHistory;
   ClickScan (Some "frame 2")].

(** A manual scan whose elaboration fails, then a manual scan that
    succeeds with a guide. *)
Definition failed_elaboration : list Event :=
  [ClickStart false true;
   DisplayMediaSettled 0 (Granted 1);
   ClickScan (Some "frame 1");
   AnalyzeSettled 0 (Resolved [suggestion "a" 90]);
   GuideSettled 0 Rejected "uuid 1" 1%Z].

Definition rescan_with_guide : list Event :=
  [ClickScan (Some "frame 2");
   AnalyzeSettled 0 (Resolved [suggestion "b" 80]);
   GuideSettled 0 (Resolved sample_guide) "uuid 2" 2%Z].

(** A manual scan that ends with a guide on screen. *)
Definition scan_to_guide : list Event :=
  [ClickStart false true;
   DisplayMediaSettled 0 (Granted 1);
   ClickScan (Some "frame 1");
   AnalyzeSettled 0 (Resolved [suggestion "a" 90]);
   GuideSettled 0 (Resolved sample_guide) "uuid 1" 1%Z].

(** ** geminiService.ts: the image sent and the guide received *)

(** [s] without the prefix [p], when it starts with it. *)
Fixpoint strip_prefix (p s : string) : option string :=
  match p, s with
  | EmptyString, _ => Some s
  | String a p', String b s' => if Ascii.eqb a b then strip_prefix p' s' else None
  | String _ _, EmptyString => None
  end.

(** The three texts the pattern of [replace] matches, all at the start of
    the string: data:image/(png|jpeg|jpg);base64, *)
Definition DATA_URL_PNG : string := "data:image/png;base64,".
Definition DATA_URL_JPEG : string := "data:image/jpeg;base64,".
Definition DATA_URL_JPG : string := "data:image/jpg;base64,".

(** [base64Image.replace(/^data:image\/(png|jpeg|jpg);base64,/, empty)] *)
Definition cleanBase64 (base64Image : string) : string :=
  match strip_prefix DATA_URL_PNG base64Image with
  | Some rest => rest
  | None =>
      match strip_prefix DATA_URL_JPEG base64Image with
      | Some rest => rest
      | None =>
          match strip_prefix DATA_URL_JPG base64Image with
          | Some rest => rest
          | None => base64Image
          end
      end
  end.

(** [obj[k] = v] on the properties of an object: the property keeps its
    place when it exists and is added last when it does not. *)
Fixpoint set_field (k : string) (v : Json) (fields : list (string * Json))
    : list (string * Json) :=
  match fields with
  | [] => [(k, v)]
  | (k', v') :: rest =>
      if String.eqb k k' then (k, v) :: rest else (k', v') :: set_field k v rest
  end.

(** What generateGuideForSuggestion resolves to: the parsed value with its
    property suggestionId set.  An object is again a JSON object; an array
    keeps its elements and carries the property beside them. *)
Inductive StampedGuide : Type :=
| StampedObject (fields : list (string * Json))
| StampedArray (items : list Json) (suggestionId : string).

(** generateGuideForSuggestion from the response on.  The file is a module,
    hence strict code: setting a property on [null], a boolean, a number or
    a string throws a TypeError, which the [catch] logs and throws again. *)
Definition generateGuideForSuggestion (suggestion : AutomationSuggestion)
    (response : GenerateContentResponse) : Settled StampedGuide :=
  match text response with
  | None => Rejected
  | Some t =>
      if negb (truthy t) then Rejected
      else
        match JSON_parse t with
        | None => Rejected
        | Some (JObj fields) =>
            Resolved (StampedObject (set_field "suggestionId" (JStr (sug_id suggestion)) fields))
        | Some (JArr items) => Resolved (StampedArray items (sug_id suggestion))
        | Some _ => Rejected
        end
  end.

(** ** storageService.ts: a store that holds no history *)

(** The key holds a text that is not empty and is not the text of an
    array: [JSON.parse] or [unshift] throws on it. *)
Definition holds_no_history (localStorage : gmap string JsonText) : Prop :=
  parse_existing (localStorage !! STORAGE_KEY) ≫= as_array = None.

(** The calls are made at times that do not go back. *)
Definition clock_does_not_go_back (calls : list SaveCall) : Prop :=
  StronglySorted (λ c1 c2, (call_now c1 ≤ call_now c2)%Z) calls.

(** ** HistoryView.tsx: the list shown *)

Inductive SortOrder : Type :=
| newest
| oldest.

Section HistoryView.
(** String.prototype.toLowerCase, which maps every letter of Unicode; it
    is a parameter. *)
Variable toLowerCase : string → string.

(** The predicate of [historyItems.filter]. *)
Definition matches (searchTerm : string) (item : HistoryItem) : bool :=
  let term := toLowerCase searchTerm in
  includes term (toLowerCase (guide_title (guide item)))
  || existsb (λ p, includes term (toLowerCase p)) (prerequisites (guide item)).

(** The comparator of the sort that follows. *)
Definition by_timestamp (sortOrder : SortOrder) (a b : HistoryItem) : option Number :=
  match sortOrder with
  | newest => Some (Num (timestamp b - timestamp a))
  | oldest => Some (Num (timestamp a - timestamp b))
  end.

Definition filteredItems (historyItems : list HistoryItem) (searchTerm : string)
    (sortOrder : SortOrder) : list HistoryItem :=
  default []
    (Array_sort (by_timestamp sortOrder)
       (filter (λ item, matches searchTerm item = true) historyItems)).
End HistoryView.

(** The order a sort order puts two records in. *)
Definition in_order (sortOrder : SortOrder) (a b : HistoryItem) : Prop :=
  match sortOrder with
  | newest => (timestamp b ≤ timestamp a)%Z
  | oldest => (timestamp a ≤ timestamp b)%Z
  end.

(** A version of toLowerCase for texts in ASCII, for examples. *)
Definition lower_ascii (c : Ascii.ascii) : Ascii.ascii :=
  let n := Ascii.nat_of_ascii c in
  if (65 <=? n) && (n <=? 90) then Ascii.ascii_of_nat (n + 32) else c.

Fixpoint toLowerCase_ascii (s : string) : string :=
  match s with
  | EmptyString => EmptyString
  | String c rest => String (lower_ascii c) (toLowerCase_ascii rest)
  end.

(** ** App.tsx: what holds of the worlds the component can be in *)

(** A task that awaits an elaboration (generateGuideForSuggestion). *)
Definition isGuideTask (t : Task) : bool :=
  match t with
  | AwaitAutoGuide _ _ | AwaitGuide _ _ => true
  | _ => false
  end.

Definition guidesOutstanding (w : World) : nat :=
  count_tasks isGuideTask (pending w).

(** The stream, the auto-scan switch, the start page and the remembered
    state fit together. *)
Definition capture_consistent (w : World) : Prop :=
  (isAutoScan (ui w) = true → is_Some (stream (ui w)))
  ∧ (∀ h, stream (ui w) = Some h → h ∈ liveTracks w)
  ∧ (appState (ui w) = IDLE → stream (ui w) = None)
  ∧ (appState (ui w) = HISTORY → previousState (ui w) = IDLE → stream (ui w) = None)
  ∧ previousState (ui w) ≠ HISTORY.

(** The spinner of GUIDE_LOADING stands for an elaboration that is
    outstanding, also when the history was opened over it. *)
Definition loading_awaits_a_guide (w : World) : Prop :=
  (appState (ui w) = GUIDE_LOADING → 0 < guidesOutstanding w)
  ∧ (appState (ui w) = HISTORY → previousState (ui w) = GUIDE_LOADING →
     0 < guidesOutstanding w).

(** ** GuideView: the text of Copy Guide *)










(** * Properties *)

(** ** Array.prototype.sort with a comparator that subtracts keys *)

Section sort_by_key.
Context {A : Type} (key : A → Z).

Lemma sort_insert_descending x l :
  StronglySorted (not_below key) l →
  ∃ l', sort_insert (descending key) x l = Some l'
        ∧ l' ≡ₚ x :: l
        ∧ StronglySorted (not_below key) l'.
Proof.
  induction 1 as [|y l Hl IH Hy]; simpl.
  - exists [x]. repeat split; auto. repeat constructor.
  - destruct (Z.leb_spec (key y - key x) 0) as [Hle|Hgt].
    + exists (x :: y :: l). repeat split; auto.
      constructor; [by constructor|].
      constructor; [unfold not_below; lia|].
      eapply Forall_impl; [exact Hy|]. unfold not_below. intros; lia.
    + destruct IH as (l' & -> & Hperm & Hsorted). simpl.
      exists (y :: l'). repeat split.
      * rewrite Hperm. apply perm_swap.
      * constructor; [done|]. rewrite Hperm.
        constructor; [unfold not_below; lia | done].
Qed.

Lemma Array_sort_descending l :
  ∃ l', Array_sort (descending key) l = Some l'
        ∧ l' ≡ₚ l
        ∧ StronglySorted (not_below key) l'.
Proof.
  induction l as [|x l (l0 & Hsort & Hperm & Hsorted)]; simpl.
  - exists []. repeat split; auto. constructor.
  - rewrite Hsort. simpl.
    destruct (sort_insert_descending x l0 Hsorted) as (l' & -> & Hp & Hs).
    exists l'. repeat split; auto. by rewrite Hp, Hperm.
Qed.

(** The first element of a sorted array carries the greatest key. *)
Lemma sorted_head_greatest best rest l :
  StronglySorted (not_below key) (best :: rest) → best :: rest ≡ₚ l →
  ∀ a, a ∈ l → (key a ≤ key best)%Z.
Proof.
  unfold not_below. intros Hs Hp a Ha. rewrite <- Hp in Ha.
  apply StronglySorted_inv in Hs as [_ Hall].
  apply elem_of_cons in Ha as [->|Ha]; [lia|].
  rewrite Forall_forall in Hall. by apply Hall.
Qed.
End sort_by_key.

(** Sorting two arrays whose elements correspond, with comparators that
    agree on corresponding elements, gives corresponding arrays. *)
Section sort_related.
Context {J T : Type} (R : J → T → Prop).
Context (cmpJ : J → J → option Number) (cmpT : T → T → option Number).
Hypothesis agree : ∀ j1 t1 j2 t2, R j1 t1 → R j2 t2 → cmpJ j1 j2 = cmpT t1 t2.

Lemma sort_insert_related j t js ts ts' :
  R j t → Forall2 R js ts → sort_insert cmpT t ts = Some ts' →
  ∃ js', sort_insert cmpJ j js = Some js' ∧ Forall2 R js' ts'.
Proof.
  intros Hjt Hall. revert ts'.
  induction Hall as [|j0 t0 js ts H0 Hall IH]; simpl; intros ts' Hins.
  - injection Hins as <-. exists [j]. split; [done|]. by repeat constructor.
  - rewrite (agree _ _ _ _ Hjt H0).
    destruct (cmpT t t0) as [v|]; simpl in *; [|done].
    destruct (keeps_order v).
    + injection Hins as <-. eexists. split; [done|]. by repeat constructor.
    + destruct (sort_insert cmpT t ts) as [ts0|]; simpl in *; [|done].
      injection Hins as <-.
      destruct (IH _ eq_refl) as (js0 & -> & Hrel). simpl.
      eexists. split; [done|]. by constructor.
Qed.

Lemma Array_sort_related js ts ts' :
  Forall2 R js ts → Array_sort cmpT ts = Some ts' →
  ∃ js', Array_sort cmpJ js = Some js' ∧ Forall2 R js' ts'.
Proof.
  intros Hall. revert ts'.
  induction Hall as [|j t js ts Hjt Hall IH]; simpl; intros ts' Hsort.
  - injection Hsort as <-. exists []. by split.
  - destruct (Array_sort cmpT ts) as [ts0|]; simpl in *; [|done].
    destruct (IH _ eq_refl) as (js0 & -> & Hrel). simpl.
    by eapply sort_insert_related.
Qed.
End sort_related.

(** An array of one element is returned as it is: the comparator is never
    called. *)
Lemma Array_sort_singleton {A} (cmp : A → A → option Number) x :
  Array_sort cmp [x] = Some [x].
Proof. reflexivity. Qed.

Lemma Array_sort_insert_perm {A} (cmp : A → A → option Number) x l l' :
  sort_insert cmp x l = Some l' → l' ≡ₚ x :: l.
Proof.
  revert l'. induction l as [|y l IH]; simpl; intros l' H.
  - by injection H as <-.
  - destruct (cmp x y) as [v|]; simpl in H; [|done].
    destruct (keeps_order v).
    + by injection H as <-.
    + destruct (sort_insert cmp x l) as [l0|]; simpl in H; [|done].
      injection H as <-. rewrite (IH _ eq_refl). apply perm_swap.
Qed.

Lemma Array_sort_perm {A} (cmp : A → A → option Number) l l' :
  Array_sort cmp l = Some l' → l' ≡ₚ l.
Proof.
  revert l'. induction l as [|x l IH]; simpl; intros l' H.
  - by injection H as <-.
  - destruct (Array_sort cmp l) as [l0|]; simpl in H; [|done].
    rewrite (Array_sort_insert_perm _ _ _ _ H). by rewrite (IH _ eq_refl).
Qed.

(** ** analyzeScreenImage *)

Lemma relevanceScore_of_suggestion j s :
  AutomationSuggestion_of_json j = Some s →
  get_relevanceScore j = Some (Some (JNum (relevanceScore s))).
Proof.
  unfold AutomationSuggestion_of_json, get_relevanceScore. intros H.
  destruct j; simpl in H; try done.
  simplify_option_eq. simpl.
  match goal with H : as_number ?v = Some _ |- _ => destruct v; simplify_eq/=; done end.
Qed.

Lemma by_relevance_of_suggestions f j1 s1 j2 s2 :
  AutomationSuggestion_of_json j1 = Some s1 →
  AutomationSuggestion_of_json j2 = Some s2 →
  by_relevance f j1 j2 = descending relevanceScore s1 s2.
Proof.
  intros H1 H2. unfold by_relevance.
  rewrite (relevanceScore_of_suggestion _ _ H1), (relevanceScore_of_suggestion _ _ H2).
  reflexivity.
Qed.

Lemma as_strings_to_json ts : as_strings (strings_to_json ts) = Some ts.
Proof.
  unfold as_strings, strings_to_json. simpl.
  apply mapM_Some. induction ts; by constructor.
Qed.

Lemma AutomationSuggestion_json_inv s :
  AutomationSuggestion_of_json (AutomationSuggestion_to_json s) = Some s.
Proof.
  destruct s as [i t e ts d r]. unfold AutomationSuggestion_of_json. simpl.
  by rewrite as_strings_to_json.
Qed.

Lemma analyze_of_suggestions f v l :
  suggestions_of_json v = Some l →
  ∃ results,
    Array_sort (descending relevanceScore) l = Some results
    ∧ mapM AutomationSuggestion_of_json (analyzeScreenImage f (response_of v)) = Some results.
Proof.
  unfold suggestions_of_json. intros Hshape.
  destruct v as [| | | |items|]; simpl in Hshape; try done.
  apply mapM_Some in Hshape.
  destruct (Array_sort_descending relevanceScore l) as (results & Hsort & _ & _).
  exists results. split; [done|].
  destruct (Array_sort_related _ (by_relevance f) (descending relevanceScore)
              (by_relevance_of_suggestions f) items l results Hshape Hsort)
    as (items' & Hsort' & Hrel).
  unfold analyzeScreenImage. simpl. rewrite Hsort'. simpl.
  by apply mapM_Some.
Qed.

(** C4.  When the text of an analyze response denotes an array of
    suggestions, the array analyzeScreenImage returns holds the same
    suggestions sorted by descending relevanceScore; when a manual scan
    receives it, it is stored as the suggestion list, and if it is not empty
    the state becomes GUIDE_LOADING and the elaboration awaited is the one
    for its first element, whose score no suggestion of the response
    exceeds.  Scores 40, 90, 70 are returned in the order 90, 70, 40. *)
Theorem analyze_sorted_and_manual_scan_elaborates_best f v l :
  suggestions_of_json v = Some l →
  ∃ results,
    suggestions_of_json (JArr (analyzeScreenImage f (response_of v))) = Some results
    ∧ results ≡ₚ l
    ∧ StronglySorted (not_below relevanceScore) results
    ∧ (∀ w i appState0 base64Image,
         pending w !! i = Some (AwaitAnalyze false appState0 base64Image) →
         suggestions (ui (react (AnalyzeSettled i (Resolved results)) w)) = results
         ∧ ∀ best rest, results = best :: rest →
             appState (ui (react (AnalyzeSettled i (Resolved results)) w)) = GUIDE_LOADING
             ∧ pending (react (AnalyzeSettled i (Resolved results)) w)
               = delete i (pending w) ++ [AwaitAutoGuide best base64Image]
             ∧ ∀ s, s ∈ l → (relevanceScore s ≤ relevanceScore best)%Z)
    ∧ analyzeScreenImage f
        (response_of (JArr (AutomationSuggestion_to_json <$>
           [suggestion "a" 40; suggestion "b" 90; suggestion "c" 70])))
      = AutomationSuggestion_to_json <$>
          [suggestion "b" 90; suggestion "c" 70; suggestion "a" 40].
Proof.
  intros Hshape.
  destruct (analyze_of_suggestions f v l Hshape) as (results & Hsort & Hread).
  destruct (Array_sort_descending relevanceScore l) as (results' & Hsort' & Hperm & Hsorted).
  rewrite Hsort in Hsort'. injection Hsort' as <-.
  exists results. split_and!; try done.
  - intros w i appState0 base64Image Hi. simpl. rewrite Hi.
    split.
    + unfold analyzeSettled. simpl. by destruct results.
    + intros best rest ->. unfold analyzeSettled. simpl. split_and!; try done.
      by eapply sorted_head_greatest.
Qed.

Lemma analyze_sorted_and_manual_scan_elaborates_best_witness :
  suggestions_of_json
    (JArr (AutomationSuggestion_to_json <$>
       [suggestion "a" 40; suggestion "b" 90; suggestion "c" 70]))
  = Some [suggestion "a" 40; suggestion "b" 90; suggestion "c" 70]
  ∧ ∃ results,
      suggestions_of_json
        (JArr (analyzeScreenImage (λ _, None)
           (response_of (JArr (AutomationSuggestion_to_json <$>
              [suggestion "a" 40; suggestion "b" 90; suggestion "c" 70])))))
      = Some results
      ∧ relevanceScore <$> results = [90; 70; 40]%Z.
Proof.
  assert (suggestions_of_json
            (JArr (AutomationSuggestion_to_json <$>
               [suggestion "a" 40; suggestion "b" 90; suggestion "c" 70]))
          = Some [suggestion "a" 40; suggestion "b" 90; suggestion "c" 70])
    as Hshape by reflexivity.
  split; [exact Hshape|].
  destruct (analyze_sorted_and_manual_scan_elaborates_best (λ _, None) _ _ Hshape)
    as (results & Hread & _).
  exists results. split; [exact Hread|].
  vm_compute in Hread. injection Hread as <-. reflexivity.
Defined.

(** C6, as the code has it.  When an analyze response carries no text, an
    empty text, a text that is not JSON, or the text of a JSON value that is
    not an array, analyzeScreenImage returns the empty list; nothing is
    thrown.  The shape of the elements of an array is not examined. *)
Theorem analyze_without_array_is_empty f r :
  carries_no_array r → analyzeScreenImage f r = [].
Proof.
  unfold carries_no_array, analyzeScreenImage.
  destruct (text r) as [t|]; [|done].
  destruct t as [raw|v]; simpl.
  - intros _. by destruct raw.
  - by intros ->.
Qed.

Lemma analyze_without_array_is_empty_witness :
  carries_no_array (response_of (JObj [("error", JStr "quota exceeded")]))
  ∧ analyzeScreenImage (λ _, None)
      (response_of (JObj [("error", JStr "quota exceeded")])) = [].
Proof.
  split.
  - reflexivity.
  - apply (analyze_without_array_is_empty (λ _, None)
             (response_of (JObj [("error", JStr "quota exceeded")]))).
    reflexivity.
Defined.

(** An array is never added to: what is returned for it is the array
    reordered, or nothing when comparing two of its elements throws. *)
Lemma analyze_array_reordered_or_empty f items :
  analyzeScreenImage f (response_of (JArr items)) = []
  ∨ analyzeScreenImage f (response_of (JArr items)) ≡ₚ items.
Proof.
  unfold analyzeScreenImage. simpl.
  destruct (Array_sort (by_relevance f) items) as [sorted|] eqn:Hsort; simpl.
  - right. by eapply Array_sort_perm.
  - by left.
Qed.

(** C6, as stated, fails: the text [[{}]] is an array whose element has none
    of the fields of a suggestion, and analyzeScreenImage returns that
    array, one element long. *)
Lemma analyze_keeps_array_of_wrong_shape :
  not_a_suggestion_array (response_of (JArr [JObj []]))
  ∧ ∀ f, analyzeScreenImage f (response_of (JArr [JObj []])) = [JObj []].
Proof.
  split.
  - reflexivity.
  - intros f. reflexivity.
Qed.

(** ** The history store *)

Lemma GuideStep_json_inv s : GuideStep_of_json (GuideStep_to_json s) = Some s.
Proof.
  destruct s as [n i [sd|] [cs|] [tp|]]; reflexivity.
Qed.

Lemma GuideSteps_json_inv ss :
  mapM GuideStep_of_json (GuideStep_to_json <$> ss) = Some ss.
Proof.
  apply mapM_Some. induction ss as [|s ss IH]; constructor; [|done].
  apply GuideStep_json_inv.
Qed.

Lemma DetailedGuide_json_inv g :
  DetailedGuide_of_json (DetailedGuide_to_json g) = Some g.
Proof.
  destruct g as [sid t ps ss]. unfold DetailedGuide_of_json. simpl.
  rewrite as_strings_to_json. simpl. by rewrite GuideSteps_json_inv.
Qed.

Lemma HistoryItem_json_inv h : HistoryItem_of_json (HistoryItem_to_json h) = Some h.
Proof.
  destruct h as [i g ts]. unfold HistoryItem_of_json. simpl.
  by rewrite DetailedGuide_json_inv.
Qed.

Lemma HistoryItems_json_inv hs :
  mapM HistoryItem_of_json (HistoryItem_to_json <$> hs) = Some hs.
Proof.
  apply mapM_Some. induction hs as [|h hs IH]; constructor; [|done].
  apply HistoryItem_json_inv.
Qed.

Lemma holds_history_getHistory ls items :
  holds_history ls items → getHistory ls = JArr items.
Proof. unfold holds_history, getHistory. by intros ->. Qed.

Lemma take_cons_take {A} n (x : A) l : take n (x :: take n l) = take n (x :: l).
Proof.
  destruct n as [|n]; [done|]. simpl. f_equal.
  rewrite take_take. f_equal. lia.
Qed.

Lemma take_app_take {A} n (k l : list A) : take n (k ++ take n l) = take n (k ++ l).
Proof.
  rewrite !take_app, take_take. do 2 f_equal. lia.
Qed.

(** One save: the new record goes first, and only the first 50 stay. *)
Lemma save_holds_history c ls old :
  holds_history ls old → holds_history (save c ls) (take 50 (stored c :: old)).
Proof.
  unfold holds_history, save, saveGuideToHistory. intros ->. simpl.
  rewrite lookup_insert_eq. simpl. f_equal. f_equal.
  case_decide as Hlen; [done|].
  f_equal. symmetry. apply take_ge. simpl in *. lia.
Qed.

Lemma save_all_holds_history calls ls old :
  holds_history ls old → length old ≤ 50 →
  holds_history (save_all calls ls) (take 50 (reverse (stored <$> calls) ++ old)).
Proof.
  revert ls old. induction calls as [|c calls IH]; intros ls old Hold Hlen.
  - simpl. by rewrite take_ge.
  - simpl. rewrite reverse_cons, <- app_assoc. simpl.
    rewrite <- take_app_take.
    apply IH; [by apply save_holds_history|].
    rewrite length_take. lia.
Qed.

(** C8.  Starting from a store that holds at most 50 records, after any
    sequence of saves the history listed is the first 50 of: the saved
    records, latest first, followed by the records held before; so it never
    has more than 50 records, a further save puts its record first and
    keeps the first 50, and 51 saves into an empty history leave exactly
    the last 50 records saved, latest first, without the first one saved. *)
Theorem history_keeps_the_50_most_recent ls old calls :
  holds_history ls old → length old ≤ 50 →
  getHistory (save_all calls ls) = JArr (take 50 (reverse (stored <$> calls) ++ old))
  ∧ length (take 50 (reverse (stored <$> calls) ++ old)) ≤ 50
  ∧ (∀ c, getHistory (save c (save_all calls ls))
          = JArr (take 50 (stored c :: take 50 (reverse (stored <$> calls) ++ old))))
  ∧ (old = [] → length calls = 51 →
       getHistory (save_all calls ls) = JArr (reverse (drop 1 (stored <$> calls)))
       ∧ mapM HistoryItem_of_json (reverse (drop 1 (stored <$> calls)))
         = Some (reverse (drop 1 (saved_item <$> calls)))
       ∧ length (reverse (drop 1 (stored <$> calls))) = 50).
Proof.
  intros Hold Hlen.
  pose proof (save_all_holds_history calls ls old Hold Hlen) as Hall.
  split_and!.
  - by apply holds_history_getHistory.
  - rewrite length_take. lia.
  - intros c. apply holds_history_getHistory. by apply save_holds_history.
  - intros -> Hcalls.
    assert (take 50 (reverse (stored <$> calls) ++ []) = reverse (drop 1 (stored <$> calls)))
      as Htake.
    { rewrite app_nil_r, take_reverse, length_fmap, Hcalls. done. }
    split_and!.
    + rewrite <- Htake. by apply holds_history_getHistory.
    + replace (stored <$> calls) with (HistoryItem_to_json <$> (saved_item <$> calls))
        by (by rewrite <- list_fmap_compose).
      rewrite <- fmap_drop, <- fmap_reverse.
      apply HistoryItems_json_inv.
    + rewrite length_reverse, length_drop, length_fmap. lia.
Qed.

Lemma history_keeps_the_50_most_recent_witness :
  holds_history ∅ []
  ∧ length ([] : list Json) ≤ 50
  ∧ getHistory (save_all (sample_call <$> seq 0 51) ∅)
    = JArr (reverse (drop 1 (stored <$> (sample_call <$> seq 0 51)))).
Proof.
  assert (holds_history ∅ []) as Hold by reflexivity.
  assert (length ([] : list Json) ≤ 50) as Hlen by (simpl; lia).
  split; [exact Hold|]. split; [exact Hlen|].
  destruct (history_keeps_the_50_most_recent ∅ [] (sample_call <$> seq 0 51) Hold Hlen)
    as (_ & _ & _ & H51).
  destruct (H51 eq_refl eq_refl) as [Hlist _]. exact Hlist.
Defined.

(** The optional properties of a stored step are those the step has. *)
Lemma GuideStep_optional_fields s :
  field "selectorDescription" (GuideStep_to_json s) = JStr <$> selectorDescription s
  ∧ field "codeSnippet" (GuideStep_to_json s) = JStr <$> codeSnippet s
  ∧ field "tip" (GuideStep_to_json s) = JStr <$> tip s.
Proof.
  destruct s as [n i [sd|] [cs|] [tp|]]; repeat split.
Qed.

(** C9.  After a guide is saved into a store that holds a history, the
    first record getHistory lists reads back as the record saved: its guide
    has the same steps in the same order, with the same stepNumber and the
    same selectorDescription, codeSnippet and tip, each present exactly
    when the saved step had it. *)
Theorem saved_guide_is_listed_with_its_steps ls old c :
  holds_history ls old →
  ∃ first rest g stored_steps,
    getHistory (save c ls) = JArr (first :: rest)
    ∧ HistoryItem_of_json first = Some (saved_item c)
    ∧ field "guide" first ≫= DetailedGuide_of_json = Some g
    ∧ steps g = steps (call_guide c)
    ∧ stepNumber <$> steps g = stepNumber <$> steps (call_guide c)
    ∧ field "guide" first ≫= field "steps" = Some (JArr stored_steps)
    ∧ Forall2 (λ s j,
         field "stepNumber" j = Some (JNum (stepNumber s))
         ∧ field "selectorDescription" j = JStr <$> selectorDescription s
         ∧ field "codeSnippet" j = JStr <$> codeSnippet s
         ∧ field "tip" j = JStr <$> tip s)
        (steps (call_guide c)) stored_steps.
Proof.
  intros Hold.
  exists (stored c), (take 49 old), (call_guide c),
    (GuideStep_to_json <$> steps (call_guide c)).
  split_and!.
  - apply holds_history_getHistory. by apply (save_holds_history c) in Hold.
  - apply HistoryItem_json_inv.
  - simpl. apply DetailedGuide_json_inv.
  - done.
  - done.
  - done.
  - induction (steps (call_guide c)) as [|s ss IH]; simpl; constructor; [|done].
    split; [reflexivity|]. apply GuideStep_optional_fields.
Qed.

Lemma saved_guide_is_listed_with_its_steps_witness :
  holds_history ∅ []
  ∧ ∃ first rest g,
      getHistory (save (sample_call 7) ∅) = JArr (first :: rest)
      ∧ field "guide" first ≫= DetailedGuide_of_json = Some g
      ∧ steps g = steps sample_guide.
Proof.
  assert (holds_history ∅ []) as Hold by reflexivity.
  split; [exact Hold|].
  destruct (saved_guide_is_listed_with_its_steps ∅ [] (sample_call 7) Hold)
    as (first & rest & g & stored_steps & Hlist & _ & Hguide & Hsteps & _).
  exists first, rest, g. split; [exact Hlist|]. split; [exact Hguide|]. exact Hsteps.
Defined.

(** The store keeps holding a history under the operations of the
    service: a save turns a history into a history, and clearing leaves the
    empty one. *)
Lemma clearHistory_holds_history ls : holds_history (clearHistory ls) [].
Proof.
  unfold holds_history, clearHistory. by rewrite lookup_delete_eq.
Qed.

Lemma empty_store_holds_history : holds_history ∅ [].
Proof. reflexivity. Qed.

(** ** The session controller *)

Lemma autoScanInterval_armed s ms :
  autoScanInterval s = Some ms ↔
  ms = 5000%Z
  ∧ isAutoScan s = true
  ∧ is_Some (stream s)
  ∧ (appState s = RECORDING ∨ appState s = SUGGESTING).
Proof.
  unfold autoScanInterval.
  destruct (isAutoScan s); simpl; [|naive_solver].
  repeat case_bool_decide; simpl; naive_solver.
Qed.

(** C2.  The auto-scan effect sets an interval exactly when isAutoScan is
    true, a stream is held and the state is RECORDING or SUGGESTING, and
    its period is 5000 ms; no interval is set in the states ANALYZING,
    GUIDE_LOADING, VIEWING_GUIDE and HISTORY, and a timer tick can only
    happen while the interval is set. *)
Theorem auto_scan_timer_only_in_passive_states s :
  (∀ ms, autoScanInterval s = Some ms ↔
         ms = 5000%Z
         ∧ isAutoScan s = true
         ∧ is_Some (stream s)
         ∧ (appState s = RECORDING ∨ appState s = SUGGESTING))
  ∧ (appState s = ANALYZING ∨ appState s = GUIDE_LOADING
     ∨ appState s = VIEWING_GUIDE ∨ appState s = HISTORY →
     autoScanInterval s = None)
  ∧ (∀ w frame, ui w = s → enabled (TimerTick frame) w = true →
       isAutoScan s = true
       ∧ is_Some (stream s)
       ∧ (appState s = RECORDING ∨ appState s = SUGGESTING)).
Proof.
  split_and!.
  - apply autoScanInterval_armed.
  - intros Hstate. destruct (autoScanInterval s) as [ms|] eqn:Hint; [|done].
    apply autoScanInterval_armed in Hint as (_ & _ & _ & Hpassive).
    destruct Hpassive, Hstate as [?|[?|[?|?]]]; congruence.
  - intros w frame <- Htick. simpl in Htick.
    apply bool_decide_eq_true in Htick as [ms Hms].
    apply autoScanInterval_armed in Hms as (_ & ? & ? & ?). done.
Qed.

Lemma auto_scan_timer_only_in_passive_states_witness :
  autoScanInterval (ui (displayMediaSettled true (Granted 1) (initialWorld ∅)))
  = Some 5000%Z
  ∧ isAutoScan (ui (displayMediaSettled true (Granted 1) (initialWorld ∅))) = true
  ∧ appState (ui (displayMediaSettled true (Granted 1) (initialWorld ∅))) = RECORDING.
Proof.
  assert (autoScanInterval (ui (displayMediaSettled true (Granted 1) (initialWorld ∅)))
          = Some 5000%Z) as Harmed by reflexivity.
  split; [exact Harmed|].
  destruct (auto_scan_timer_only_in_passive_states
              (ui (displayMediaSettled true (Granted 1) (initialWorld ∅))))
    as (Hiff & _).
  destruct (proj1 (Hiff 5000%Z) Harmed) as (_ & Hauto & _ & _).
  split; [exact Hauto|reflexivity].
Defined.

(** C3.  Stopping the capture, by the Stop button or because a track
    ended, leaves no stream in the state and none of its tracks running,
    turns isAutoScan off, and keeps the suggestions, the selected guide, the
    last image and the stored history.  With suggestions, a selected guide
    or the history open, RECORDING and ANALYZING become SUGGESTING; with no
    suggestions, no selected guide and the history not open, the state
    becomes IDLE. *)
Theorem stop_releases_the_stream_and_keeps_results w e :
  e = ClickStop ∨ (∃ h, e = TrackEnded h) →
  stream (ui (react e w)) = None
  ∧ (∀ h, stream (ui w) = Some h → h ∉ liveTracks (react e w))
  ∧ isAutoScan (ui (react e w)) = false
  ∧ suggestions (ui (react e w)) = suggestions (ui w)
  ∧ selectedGuide (ui (react e w)) = selectedGuide (ui w)
  ∧ lastImage (ui (react e w)) = lastImage (ui w)
  ∧ localStorage (react e w) = localStorage w
  ∧ (hasContent (ui w) = true →
       appState (ui w) = RECORDING ∨ appState (ui w) = ANALYZING →
       appState (ui (react e w)) = SUGGESTING)
  ∧ (suggestions (ui w) = [] → selectedGuide (ui w) = None →
       appState (ui w) ≠ HISTORY →
       appState (ui (react e w)) = IDLE).
Proof.
  assert (∀ w0,
    stream (ui (handleStopStream w0)) = None
    ∧ (∀ h, stream (ui w0) = Some h → h ∉ liveTracks (handleStopStream w0))
    ∧ liveTracks (handleStopStream w0) ⊆ liveTracks w0
    ∧ isAutoScan (ui (handleStopStream w0)) = false
    ∧ suggestions (ui (handleStopStream w0)) = suggestions (ui w0)
    ∧ selectedGuide (ui (handleStopStream w0)) = selectedGuide (ui w0)
    ∧ lastImage (ui (handleStopStream w0)) = lastImage (ui w0)
    ∧ localStorage (handleStopStream w0) = localStorage w0
    ∧ (hasContent (ui w0) = true →
         appState (ui w0) = RECORDING ∨ appState (ui w0) = ANALYZING →
         appState (ui (handleStopStream w0)) = SUGGESTING)
    ∧ (hasContent (ui w0) = false → appState (ui (handleStopStream w0)) = IDLE)) as Hstop.
  { intros w0. unfold handleStopStream.
    destruct (hasContent (ui w0)) eqn:Hcontent; simpl;
      destruct (stream (ui w0)) as [h0|] eqn:Hstream; simpl;
      repeat case_bool_decide; simpl; rewrite ?Hstream;
      split_and!; try done; try set_solver; naive_solver. }
  assert (∀ s, suggestions s = [] → selectedGuide s = None → appState s ≠ HISTORY →
               hasContent s = false) as Hempty.
  { intros s Hs Hg Hh. unfold hasContent. rewrite Hs, Hg. simpl.
    repeat case_bool_decide; simpl in *; try done; try lia. }
  intros [->|[h ->]]; simpl.
  - destruct (Hstop w) as (? & ? & ? & ? & ? & ? & ? & ? & ? & ?).
    split_and!; auto.
  - destruct (Hstop (stopTracks h w)) as (? & Hrel & Hsub & ? & ? & ? & ? & ? & ? & Hidle).
    split_and!; auto.
Qed.

Lemma stop_releases_the_stream_and_keeps_results_witness :
  (ClickStop = ClickStop ∨ (∃ h, ClickStop = TrackEnded h))
  ∧ appState (ui (react ClickStop
       (setSuggestions [suggestion "a" 90]
          (displayMediaSettled false (Granted 1) (initialWorld ∅))))) = SUGGESTING.
Proof.
  split.
  - left. reflexivity.
  - apply (stop_releases_the_stream_and_keeps_results
             (setSuggestions [suggestion "a" 90]
                (displayMediaSettled false (Granted 1) (initialWorld ∅)))
             ClickStop).
    + left. reflexivity.
    + reflexivity.
    + left. reflexivity.
Defined.

Lemma handleToggleHistory_open w :
  appState (ui w) ≠ HISTORY →
  handleToggleHistory w = setAppState HISTORY (setPreviousState (appState (ui w)) w).
Proof.
  intros Hstate. unfold handleToggleHistory.
  by rewrite (bool_decide_eq_false_2 _ Hstate).
Qed.

Lemma handleToggleHistory_close w :
  appState (ui w) = HISTORY →
  handleToggleHistory w
  = setAppState
      (if bool_decide (previousState (ui w) ≠ HISTORY) then previousState (ui w) else IDLE) w.
Proof.
  intros Hstate. unfold handleToggleHistory.
  by rewrite (bool_decide_eq_true_2 _ Hstate).
Qed.

(** C7.  The history button keeps one prior state.  From a state other
    than HISTORY it records that state as previousState and shows the
    history; pressed again at once it returns to the recorded state.  From
    HISTORY it returns to previousState, or to IDLE when previousState is
    itself HISTORY.  So SUGGESTING is left and found again, and so is IDLE.
    Nothing but appState and previousState changes. *)
Theorem history_toggle_restores_the_prior_state w :
  (appState (ui w) ≠ HISTORY →
     appState (ui (handleToggleHistory w)) = HISTORY
     ∧ previousState (ui (handleToggleHistory w)) = appState (ui w)
     ∧ appState (ui (handleToggleHistory (handleToggleHistory w))) = appState (ui w))
  ∧ (appState (ui w) = HISTORY →
     previousState (ui (handleToggleHistory w)) = previousState (ui w)
     ∧ (previousState (ui w) ≠ HISTORY →
          appState (ui (handleToggleHistory w)) = previousState (ui w))
     ∧ (previousState (ui w) = HISTORY →
          appState (ui (handleToggleHistory w)) = IDLE))
  ∧ (appState (ui w) = SUGGESTING →
     appState (ui (handleToggleHistory (handleToggleHistory w))) = SUGGESTING)
  ∧ (appState (ui w) = IDLE →
     appState (ui (handleToggleHistory (handleToggleHistory w))) = IDLE)
  ∧ react ClickHistory w = handleToggleHistory w
  ∧ ∃ a p, handleToggleHistory w = setAppState a (setPreviousState p w).
Proof.
  assert (appState (ui w) ≠ HISTORY →
     appState (ui (handleToggleHistory w)) = HISTORY
     ∧ previousState (ui (handleToggleHistory w)) = appState (ui w)
     ∧ appState (ui (handleToggleHistory (handleToggleHistory w))) = appState (ui w))
    as Hopen.
  { intros Hstate. rewrite (handleToggleHistory_open w Hstate).
    split; [done|]. split; [done|].
    rewrite handleToggleHistory_close by done. simpl.
    by rewrite (bool_decide_eq_true_2 _ Hstate). }
  split_and!.
  - exact Hopen.
  - intros Hstate. rewrite (handleToggleHistory_close w Hstate). simpl.
    split_and!; [done| |].
    + intros Hprev. by rewrite (bool_decide_eq_true_2 _ Hprev).
    + intros Hprev. rewrite bool_decide_eq_false_2; [done|]. by intros [].
  - intros Hstate. destruct Hopen as (_ & _ & ->); rewrite Hstate; done.
  - intros Hstate. destruct Hopen as (_ & _ & ->); rewrite Hstate; done.
  - reflexivity.
  - destruct (decide (appState (ui w) = HISTORY)) as [Hstate|Hstate].
    + rewrite (handleToggleHistory_close w Hstate).
      exists (if bool_decide (previousState (ui w) ≠ HISTORY)
              then previousState (ui w) else IDLE), (previousState (ui w)).
      by destruct w as [[] ? ? ?].
    + rewrite (handleToggleHistory_open w Hstate). by eexists _, _.
Qed.

Lemma history_toggle_restores_the_prior_state_witness :
  appState (ui (setAppState SUGGESTING (initialWorld ∅))) ≠ HISTORY
  ∧ appState (ui (handleToggleHistory (setAppState SUGGESTING (initialWorld ∅))))
    = HISTORY
  ∧ appState (ui (handleToggleHistory
                    (handleToggleHistory (setAppState SUGGESTING (initialWorld ∅)))))
    = SUGGESTING.
Proof.
  assert (appState (ui (setAppState SUGGESTING (initialWorld ∅))) ≠ HISTORY) as Hstate
    by (simpl; discriminate).
  split; [exact Hstate|].
  destruct (history_toggle_restores_the_prior_state
              (setAppState SUGGESTING (initialWorld ∅))) as (Hopen & _).
  destruct (Hopen Hstate) as (Hhist & _ & Hback).
  split; [exact Hhist|exact Hback].
Defined.

(** *** Outstanding calls *)

Lemma count_tasks_snoc p l t :
  count_tasks p (l ++ [t]) = count_tasks p l + (if p t then 1 else 0).
Proof.
  unfold count_tasks. rewrite filter_app, length_app. f_equal.
  rewrite filter_cons, filter_nil. destruct (p t); by case_decide.
Qed.

Lemma count_tasks_delete p l i t :
  l !! i = Some t →
  count_tasks p l = count_tasks p (delete i l) + (if p t then 1 else 0).
Proof.
  unfold count_tasks. revert i. induction l as [|t0 l IH]; intros i Hi; [done|].
  destruct i as [|i]; simpl in *.
  - injection Hi as ->. rewrite filter_cons.
    destruct (p t); case_decide; simpl; try done; lia.
  - rewrite !filter_cons. case_decide; simpl; rewrite (IH i Hi); lia.
Qed.

Lemma flag_counts_scans_mount ls : flag_counts_scans (initialWorld ls).
Proof. reflexivity. Qed.

Lemma flag_counts_scans_react w e :
  flag_counts_scans w → enabled e w = true → flag_counts_scans (react e w).
Proof.
  unfold flag_counts_scans, scansOutstanding. intros Hinv Hen.
  destruct e; simpl in *.
  - unfold startScreenShare. destruct supported; simpl; [|done].
    rewrite count_tasks_snoc. simpl. lia.
  - unfold handleStopStream.
    destruct (stream (ui w)); simpl; repeat case_match; simpl in *; congruence.
  - unfold handleStopStream.
    destruct (stream (ui w)); simpl; repeat case_match; simpl in *; congruence.
  - unfold handleReset. destruct (stream (ui w)); simpl; done.
  - done.
  - unfold captureAndAnalyze.
    destruct (videoMounted (ui w)); simpl; [|done].
    destruct (isAnalyzing (ui w)) eqn:Hflag; simpl; [by rewrite Hflag|].
    destruct frame; simpl; [|done].
    rewrite count_tasks_snoc. simpl. lia.
  - unfold captureAndAnalyze.
    destruct (videoMounted (ui w)); simpl; [|done].
    destruct (isAnalyzing (ui w)) eqn:Hflag; simpl; [by rewrite Hflag|].
    destruct frame; simpl; [|done].
    rewrite count_tasks_snoc. simpl. lia.
  - destruct (suggestions (ui w) !! i); [|done].
    unfold handleSelectSuggestion.
    destruct (lastImage (ui w)) as [[|c img]|]; simpl; try done.
    rewrite count_tasks_snoc. simpl. lia.
  - done.
  - unfold handleToggleHistory. case_bool_decide; simpl; done.
  - done.
  - done.
  - destruct (pending w !! i) as [[autoStart| | |]|] eqn:Hi; try done.
    pose proof (count_tasks_delete isScanTask _ _ _ Hi) as Hcount. simpl in Hcount.
    destruct r; simpl; lia.
  - destruct (pending w !! i) as [[|isAuto appState0 img| |]|] eqn:Hi; try done.
    pose proof (count_tasks_delete isScanTask _ _ _ Hi) as Hcount. simpl in Hcount.
    destruct (isAnalyzing (ui w)) eqn:Hflag; [|lia].
    unfold analyzeSettled.
    destruct r as [results|]; simpl.
    + destruct isAuto; simpl.
      * destruct (_ && _); simpl; lia.
      * destruct results; simpl; [lia|].
        rewrite count_tasks_snoc, Hflag. simpl. lia.
    + destruct isAuto; simpl; lia.
  - destruct (pending w !! i) as [[| |best img|sug img]|] eqn:Hi; try done.
    + pose proof (count_tasks_delete isScanTask _ _ _ Hi) as Hcount. simpl in Hcount.
      destruct (isAnalyzing (ui w)) eqn:Hflag; [|lia].
      unfold autoGuideSettled. destruct r; simpl; lia.
    + pose proof (count_tasks_delete isScanTask _ _ _ Hi) as Hcount. simpl in Hcount.
      unfold guideSettled. destruct r; simpl; lia.
Qed.

Lemma reachable_flag_counts_scans w : reachable w → flag_counts_scans w.
Proof.
  induction 1 as [ls|w e _ IH Hen].
  - apply flag_counts_scans_mount.
  - by apply flag_counts_scans_react.
Qed.

(** *** A guide is selected while one is viewed *)

Lemma guide_is_selected_mount ls : guide_is_selected (initialWorld ls).
Proof. split; intros; done. Qed.

Local Ltac open_world w :=
  destruct w as [[st0 str0 sugs0 sel0 err0 img0 prev0 auto0 flag0] tasks0 ls0 live0];
  unfold guide_is_selected in *; simpl in *.

Local Ltac by_cases :=
  repeat first [ case_bool_decide | case_match ]; simplify_eq/=;
  split; intros; simplify_eq/=; try done; eauto.

Lemma guide_is_selected_react w e :
  guide_is_selected w → enabled e w = true → guide_is_selected (react e w).
Proof.
  intros [Hview Hhist] Hen.
  destruct e; open_world w.
  - unfold startScreenShare. by_cases.
  - unfold handleStopStream, hasContent. by_cases.
  - unfold handleStopStream, hasContent. by_cases.
  - unfold handleReset. by_cases.
  - by_cases.
  - unfold captureAndAnalyze. by_cases.
  - unfold captureAndAnalyze. by_cases.
  - unfold handleSelectSuggestion. by_cases.
  - unfold handleBackToSuggestions. by_cases.
  - unfold handleToggleHistory. by_cases.
  - unfold handleSelectHistoryGuide. by_cases.
  - by_cases.
  - unfold displayMediaSettled. by_cases.
  - unfold analyzeSettled. by_cases.
  - unfold autoGuideSettled, guideSettled. by_cases.
Qed.

Lemma reachable_guide_is_selected w : reachable w → guide_is_selected w.
Proof.
  induction 1 as [ls|w e _ IH Hen].
  - apply guide_is_selected_mount.
  - by apply guide_is_selected_react.
Qed.

Lemma reachable_run script w w' :
  reachable w → run script w = Some w' → reachable w'.
Proof.
  revert w. induction script as [|e script IH]; simpl; intros w Hw Hrun.
  - by injection Hrun as <-.
  - destruct (enabled e w) eqn:Hen; [|done].
    eapply IH; [|exact Hrun]. by constructor.
Qed.

Lemma reachable_world_after script : reachable (world_after script).
Proof.
  unfold world_after.
  destruct (run script (initialWorld ∅)) as [w|] eqn:Hrun; simpl.
  - eapply reachable_run; [|exact Hrun]. constructor.
  - constructor.
Qed.

(** C10.  In a world the component can be in, when the capture stops (Stop
    button or end of a track) while the state is VIEWING_GUIDE or HISTORY,
    or SUGGESTING with content, the state stays what it was and the world
    changes only by the stream given up and auto-scan turned off.  In any
    world, a stop that ends in SUGGESTING started in SUGGESTING, RECORDING
    or ANALYZING, and the stop handler leaves the suggestions, the selected
    guide, the error message, the last image, the previous state, the
    in-flight flag, the pending calls and the store as they were. *)
Theorem stop_leaves_the_state_elsewhere w :
  reachable w →
  appState (ui w) = VIEWING_GUIDE ∨ appState (ui w) = HISTORY
  ∨ (appState (ui w) = SUGGESTING ∧ hasContent (ui w) = true) →
  handleStopStream w = released w
  ∧ appState (ui (handleStopStream w)) = appState (ui w)
  ∧ (∀ h, react (TrackEnded h) w = released (stopTracks h w))
  ∧ (∀ w0, appState (ui (handleStopStream w0)) = SUGGESTING →
           appState (ui w0) = SUGGESTING ∨ appState (ui w0) = RECORDING
           ∨ appState (ui w0) = ANALYZING)
  ∧ (∀ w0, suggestions (ui (handleStopStream w0)) = suggestions (ui w0)
           ∧ selectedGuide (ui (handleStopStream w0)) = selectedGuide (ui w0)
           ∧ errorMsg (ui (handleStopStream w0)) = errorMsg (ui w0)
           ∧ lastImage (ui (handleStopStream w0)) = lastImage (ui w0)
           ∧ previousState (ui (handleStopStream w0)) = previousState (ui w0)
           ∧ isAnalyzing (ui (handleStopStream w0)) = isAnalyzing (ui w0)
           ∧ pending (handleStopStream w0) = pending w0
           ∧ localStorage (handleStopStream w0) = localStorage w0).
Proof.
  intros Hreach Hstate.
  destruct (reachable_guide_is_selected w Hreach) as [Hview _].
  assert (hasContent (ui w) = true) as Hcontent.
  { unfold hasContent. destruct Hstate as [Hs|[Hs|[_ Hc]]]; [| |done].
    - rewrite (bool_decide_eq_true_2 _ (Hview Hs)). by rewrite orb_true_r.
    - rewrite (bool_decide_eq_true_2 _ Hs). by rewrite orb_true_r. }
  assert (bool_decide (appState (ui w) = RECORDING)
          || bool_decide (appState (ui w) = ANALYZING) = false) as Hpassive.
  { destruct Hstate as [Hs|[Hs|[Hs _]]]; rewrite Hs; done. }
  assert (handleStopStream w = released w) as Hstop.
  { unfold handleStopStream, released. by rewrite Hcontent, Hpassive. }
  split_and!.
  - exact Hstop.
  - rewrite Hstop. unfold released. by destruct (stream (ui w)).
  - intros h. simpl. unfold handleStopStream, released. simpl.
    by rewrite Hcontent, Hpassive.
  - intros w0. unfold handleStopStream.
    destruct (hasContent (ui w0)); simpl.
    + repeat case_bool_decide; simpl; destruct (stream (ui w0)); simpl; auto.
    + by destruct (stream (ui w0)).
  - intros w0. unfold handleStopStream.
    destruct (hasContent (ui w0)); simpl;
      repeat case_bool_decide; simpl; destruct (stream (ui w0)); simpl; done.
Qed.

Lemma stop_leaves_the_state_elsewhere_witness :
  reachable (world_after scan_to_guide)
  ∧ (appState (ui (world_after scan_to_guide)) = VIEWING_GUIDE
     ∨ appState (ui (world_after scan_to_guide)) = HISTORY
     ∨ (appState (ui (world_after scan_to_guide)) = SUGGESTING
        ∧ hasContent (ui (world_after scan_to_guide)) = true))
  ∧ appState (ui (handleStopStream (world_after scan_to_guide))) = VIEWING_GUIDE.
Proof.
  assert (appState (ui (world_after scan_to_guide)) = VIEWING_GUIDE) as Hstate
    by (vm_compute; reflexivity).
  split; [apply reachable_world_after|].
  split; [left; exact Hstate|].
  destruct (stop_leaves_the_state_elsewhere (world_after scan_to_guide)
              (reachable_world_after scan_to_guide) (or_introl Hstate))
    as (_ & Hsame & _).
  rewrite Hsame. exact Hstate.
Defined.

(** *** The in-flight flag *)

Lemma captureAndAnalyze_dropped isAuto frame w :
  isAnalyzing (ui w) = true → captureAndAnalyze isAuto frame w = w.
Proof.
  intros Hflag. unfold captureAndAnalyze. rewrite Hflag.
  by destruct (videoMounted (ui w)).
Qed.

Lemma captureAndAnalyze_issues isAuto frame w :
  pending (captureAndAnalyze isAuto frame w) ≠ pending w →
  isAnalyzing (ui w) = false
  ∧ isAnalyzing (ui (captureAndAnalyze isAuto frame w)) = true
  ∧ ∃ base64Image,
      frame = Some base64Image
      ∧ pending (captureAndAnalyze isAuto frame w)
        = pending w ++ [AwaitAnalyze isAuto (appState (ui w)) base64Image].
Proof.
  unfold captureAndAnalyze.
  destruct (videoMounted (ui w)); simpl; [|done].
  destruct (isAnalyzing (ui w)); simpl; [done|].
  destruct frame as [base64Image|]; simpl.
  - intros _. split; [done|]. split; [by destruct isAuto|].
    exists base64Image. by destruct isAuto.
  - by destruct isAuto.
Qed.

(** C1, as the code has it.  In every world the component can be in, the
    number of outstanding scans (captureAndAnalyze awaiting the analyze
    call, or the elaboration a manual scan chains to it) is one when
    isAnalyzing is set and zero otherwise.  A scan request, manual or from
    the timer, that finds the flag set changes nothing.  captureAndAnalyze
    issues an analyze call only from a world where the flag is clear, and
    sets it.  When the analyze call settles, either the manual scan goes on
    to elaborate its best suggestion with the flag still set, or the flag is
    clear; when that elaboration settles, resolved or rejected, the flag is
    clear.  Selecting a suggestion neither reads nor writes the flag. *)
Theorem at_most_one_scan_outstanding w :
  reachable w →
  scansOutstanding w = (if isAnalyzing (ui w) then 1 else 0)
  ∧ scansOutstanding w ≤ 1
  ∧ (isAnalyzing (ui w) = true →
       ∀ isAuto frame, captureAndAnalyze isAuto frame w = w)
  ∧ (∀ isAuto frame,
       pending (captureAndAnalyze isAuto frame w) ≠ pending w →
       isAnalyzing (ui w) = false
       ∧ isAnalyzing (ui (captureAndAnalyze isAuto frame w)) = true)
  ∧ (∀ i isAuto appState0 base64Image r,
       pending w !! i = Some (AwaitAnalyze isAuto appState0 base64Image) →
       (isAnalyzing (ui (react (AnalyzeSettled i r) w)) = false
        ∧ scansOutstanding (react (AnalyzeSettled i r) w) = 0)
       ∨ (∃ best rest,
            isAuto = false ∧ r = Resolved (best :: rest)
            ∧ isAnalyzing (ui (react (AnalyzeSettled i r) w)) = true
            ∧ pending (react (AnalyzeSettled i r) w)
              = delete i (pending w) ++ [AwaitAutoGuide best base64Image]))
  ∧ (∀ i best base64Image r uuid now,
       pending w !! i = Some (AwaitAutoGuide best base64Image) →
       isAnalyzing (ui (react (GuideSettled i r uuid now) w)) = false
       ∧ scansOutstanding (react (GuideSettled i r uuid now) w) = 0)
  ∧ (∀ s, isAnalyzing (ui (handleSelectSuggestion s w)) = isAnalyzing (ui w)).
Proof.
  intros Hreach.
  pose proof (reachable_flag_counts_scans w Hreach) as Hinv.
  assert (∀ e, enabled e w = true →
               isAnalyzing (ui (react e w)) = false →
               scansOutstanding (react e w) = 0) as Hclear.
  { intros e Hen Hflag.
    pose proof (flag_counts_scans_react w e Hinv Hen) as Hnext.
    unfold flag_counts_scans in Hnext. by rewrite Hflag in Hnext. }
  split_and!.
  - exact Hinv.
  - rewrite Hinv. destruct (isAnalyzing (ui w)); lia.
  - intros Hflag isAuto frame. by apply captureAndAnalyze_dropped.
  - intros isAuto frame Hissued.
    destruct (captureAndAnalyze_issues isAuto frame w Hissued) as (? & ? & _). done.
  - intros i isAuto appState0 base64Image r Hi.
    assert (enabled (AnalyzeSettled i r) w = true) as Hen by (simpl; by rewrite Hi).
    destruct r as [[|best rest]|]; [| |].
    + left. assert (isAnalyzing (ui (react (AnalyzeSettled i (Resolved [])) w)) = false)
        as Hflag.
      { simpl. rewrite Hi. unfold analyzeSettled. simpl. by destruct isAuto. }
      split; [done|]. by apply Hclear.
    + destruct isAuto.
      * left.
        assert (isAnalyzing
                  (ui (react (AnalyzeSettled i (Resolved (best :: rest))) w)) = false)
          as Hflag.
        { simpl. rewrite Hi. unfold analyzeSettled. simpl. done. }
        split; [done|]. by apply Hclear.
      * right. exists best, rest. split; [done|]. split; [done|].
        assert (isAnalyzing (ui w) = true) as Hset.
        { pose proof (count_tasks_delete isScanTask _ _ _ Hi) as Hcount.
          unfold flag_counts_scans, scansOutstanding in Hinv. simpl in Hcount.
          destruct (isAnalyzing (ui w)); [done|lia]. }
        simpl. rewrite Hi. unfold analyzeSettled. simpl. done.
    + left. assert (isAnalyzing (ui (react (AnalyzeSettled i Rejected) w)) = false)
        as Hflag.
      { simpl. rewrite Hi. unfold analyzeSettled. simpl. by destruct isAuto. }
      split; [done|]. by apply Hclear.
  - intros i best base64Image r uuid now Hi.
    assert (enabled (GuideSettled i r uuid now) w = true) as Hen
      by (simpl; by rewrite Hi).
    assert (isAnalyzing (ui (react (GuideSettled i r uuid now) w)) = false) as Hflag.
    { simpl. rewrite Hi. unfold autoGuideSettled. by destruct r. }
    split; [done|]. by apply Hclear.
  - intros s. unfold handleSelectSuggestion.
    by destruct (lastImage (ui w)) as [[|c img]|].
Qed.

Lemma at_most_one_scan_outstanding_witness :
  reachable (world_after select_during_auto_scan)
  ∧ scansOutstanding (world_after select_during_auto_scan) = 1
  ∧ isAnalyzing (ui (world_after select_during_auto_scan)) = true.
Proof.
  split; [apply reachable_world_after|].
  destruct (at_most_one_scan_outstanding (world_after select_during_auto_scan)
              (reachable_world_after select_during_auto_scan)) as (Hcount & _).
  assert (isAnalyzing (ui (world_after select_during_auto_scan)) = true) as Hflag
    by (vm_compute; reflexivity).
  rewrite Hflag in Hcount. split; [exact Hcount|exact Hflag].
Defined.

(** C1, as stated, fails.  While the analyze call of an auto scan is
    outstanding (flag set), selecting a suggestion starts an elaboration:
    two gateway calls are outstanding.  And while the elaboration of a
    selected suggestion is outstanding, a manual scan from the history view
    is accepted: again two gateway calls are outstanding. *)
Lemma selection_bypasses_the_flag :
  (run select_during_auto_scan (initialWorld ∅) ≫= λ w,
     Some (isAnalyzing (ui w), gatewayCallsOutstanding w, pending w))
  = Some (true, 2,
          [AwaitAnalyze true SUGGESTING "frame 2";
           AwaitGuide (suggestion "a" 90) "frame 2"])
  ∧ (run scan_during_selected_elaboration (initialWorld ∅) ≫= λ w,
       Some (isAnalyzing (ui w), gatewayCallsOutstanding w, pending w))
    = Some (true, 2,
            [AwaitGuide (suggestion "a" 90) "frame 1";
             AwaitAnalyze false HISTORY "frame 2"]).
Proof.
  split; vm_compute; reflexivity.
Qed.

(** *** The error message *)

(** Only startScreenShare clears the error message. *)
Lemma errorMsg_stays w e :
  (∀ autoStart supported, e ≠ ClickStart autoStart supported) →
  is_Some (errorMsg (ui w)) → is_Some (errorMsg (ui (react e w))).
Proof.
  intros Hnot Hmsg. destruct e; simpl.
  - by destruct (Hnot autoStart supported).
  - unfold handleStopStream.
    destruct (stream (ui w)); simpl; repeat case_match; simpl; done.
  - unfold handleStopStream.
    destruct (stream (ui w)); simpl; repeat case_match; simpl; done.
  - unfold handleReset. destruct (stream (ui w)); simpl; done.
  - done.
  - unfold captureAndAnalyze. repeat case_match; simpl; done.
  - unfold captureAndAnalyze. repeat case_match; simpl; done.
  - unfold handleSelectSuggestion. repeat case_match; simpl; done.
  - done.
  - unfold handleToggleHistory. repeat case_match; simpl; done.
  - done.
  - done.
  - unfold displayMediaSettled. repeat case_match; simpl; done.
  - unfold analyzeSettled. repeat case_match; simpl; done.
  - unfold autoGuideSettled, guideSettled. repeat case_match; simpl; done.
Qed.

(** C5, as the code has it.  When an elaboration fails, whether a manual
    scan started it or the selection of a suggestion, the suggestions stay
    as they were, the state becomes SUGGESTING and a message that is not
    empty is set.  No later step of a scan clears the message: whatever
    happens to the component, apart from a new start of screen sharing, a
    message that is set stays set; a start of screen sharing clears it
    before it asks for the screen. *)
Theorem elaborate_failure_falls_back_to_suggestions w i uuid now :
  (∃ s img, pending w !! i = Some (AwaitAutoGuide s img)
            ∨ pending w !! i = Some (AwaitGuide s img)) →
  suggestions (ui (react (GuideSettled i Rejected uuid now) w)) = suggestions (ui w)
  ∧ appState (ui (react (GuideSettled i Rejected uuid now) w)) = SUGGESTING
  ∧ (∃ c m, errorMsg (ui (react (GuideSettled i Rejected uuid now) w))
            = Some (String c m))
  ∧ (∀ w' e, (∀ autoStart supported, e ≠ ClickStart autoStart supported) →
             is_Some (errorMsg (ui w')) → is_Some (errorMsg (ui (react e w'))))
  ∧ (∀ w' autoStart, errorMsg (ui (react (ClickStart autoStart true) w')) = None).
Proof.
  intros (s & img & Hi).
  split_and!.
  - simpl. by destruct Hi as [-> | ->].
  - simpl. by destruct Hi as [-> | ->].
  - simpl. destruct Hi as [-> | ->]; simpl; by eexists _, _.
  - apply errorMsg_stays.
  - done.
Qed.

Lemma elaborate_failure_falls_back_to_suggestions_witness :
  (∃ s img,
     pending (world_after (take 4 failed_elaboration)) !! 0 = Some (AwaitAutoGuide s img)
     ∨ pending (world_after (take 4 failed_elaboration)) !! 0 = Some (AwaitGuide s img))
  ∧ appState (ui (react (GuideSettled 0 Rejected "uuid 1" 1%Z)
                    (world_after (take 4 failed_elaboration)))) = SUGGESTING.
Proof.
  assert (∃ s img,
     pending (world_after (take 4 failed_elaboration)) !! 0 = Some (AwaitAutoGuide s img)
     ∨ pending (world_after (take 4 failed_elaboration)) !! 0 = Some (AwaitGuide s img))
    as Hpending.
  { exists (suggestion "a" 90), "frame 1". left. vm_compute. reflexivity. }
  split; [exact Hpending|].
  destruct (elaborate_failure_falls_back_to_suggestions
              (world_after (take 4 failed_elaboration)) 0 "uuid 1" 1%Z Hpending)
    as (_ & Hstate & _).
  exact Hstate.
Defined.

(** C5, as stated, fails in its last part.  A manual scan whose elaboration
    fails leaves a message; the next manual scan succeeds, a guide is shown,
    and the message is still there. *)
Lemma rescan_keeps_the_error_message :
  (run failed_elaboration (initialWorld ∅) ≫= λ w,
     Some (appState (ui w), errorMsg (ui w)))
  = Some (SUGGESTING,
          Some "Could not auto-generate guide. Please select a suggestion from the list.")
  ∧ (run (failed_elaboration ++ rescan_with_guide) (initialWorld ∅) ≫= λ w,
       Some (appState (ui w), selectedGuide (ui w), errorMsg (ui w)))
    = Some (VIEWING_GUIDE, Some sample_guide,
            Some "Could not auto-generate guide. Please select a suggestion from the list.").
Proof.
  split; vm_compute; reflexivity.
Qed.

(** * Further properties of the code *)

(** ** geminiService.ts *)

Lemma strip_prefix_Some p s rest : strip_prefix p s = Some rest → s = p +:+ rest.
Proof.
  revert s. induction p as [|a p IH]; intros s H; simpl in *.
  - by injection H as ->.
  - destruct s as [|b s]; [done|].
    destruct (Ascii.eqb_spec a b) as [->|]; [|done].
    by rewrite (IH s H).
Qed.

Lemma strip_prefix_app p rest : strip_prefix p (p +:+ rest) = Some rest.
Proof.
  induction p as [|a p IH]; simpl; [done|]. by rewrite Ascii.eqb_refl.
Qed.

Lemma strip_prefix_longer p q s :
  strip_prefix p s = None → strip_prefix (p +:+ q) s = None.
Proof.
  revert s. induction p as [|a p IH]; intros s H; simpl in *; [done|].
  destruct s as [|b s]; [done|]. destruct (Ascii.eqb a b); [by apply IH|done].
Qed.

(** X1.  What cleanBase64 returns is its argument without one of the three
    prefixes data:image/png;base64, data:image/jpeg;base64, and
    data:image/jpg;base64, or the argument itself; the payload of a data URL
    of one of these three types comes back exactly, whatever it is; and a
    string that does not start with data:image/ is returned unchanged. *)
Theorem cleanBase64_strips_one_data_url_prefix base64Image :
  (∃ p, p ∈ [EmptyString; DATA_URL_PNG; DATA_URL_JPEG; DATA_URL_JPG]
        ∧ base64Image = p +:+ cleanBase64 base64Image)
  ∧ (∀ payload,
       cleanBase64 (DATA_URL_PNG +:+ payload) = payload
       ∧ cleanBase64 (DATA_URL_JPEG +:+ payload) = payload
       ∧ cleanBase64 (DATA_URL_JPG +:+ payload) = payload)
  ∧ (strip_prefix "data:image/" base64Image = None →
     cleanBase64 base64Image = base64Image).
Proof.
  split_and!.
  - unfold cleanBase64.
    destruct (strip_prefix DATA_URL_PNG base64Image) as [rest|] eqn:Hpng.
    { exists DATA_URL_PNG. split; [set_solver|]. by apply strip_prefix_Some. }
    destruct (strip_prefix DATA_URL_JPEG base64Image) as [rest|] eqn:Hjpeg.
    { exists DATA_URL_JPEG. split; [set_solver|]. by apply strip_prefix_Some. }
    destruct (strip_prefix DATA_URL_JPG base64Image) as [rest|] eqn:Hjpg.
    { exists DATA_URL_JPG. split; [set_solver|]. by apply strip_prefix_Some. }
    exists EmptyString. split; [set_solver|done].
  - intros payload. unfold cleanBase64. split_and!.
    + by rewrite strip_prefix_app.
    + replace (strip_prefix DATA_URL_PNG (DATA_URL_JPEG +:+ payload)) with (@None string)
        by reflexivity.
      by rewrite strip_prefix_app.
    + replace (strip_prefix DATA_URL_PNG (DATA_URL_JPG +:+ payload)) with (@None string)
        by reflexivity.
      replace (strip_prefix DATA_URL_JPEG (DATA_URL_JPG +:+ payload)) with (@None string)
        by reflexivity.
      by rewrite strip_prefix_app.
  - intros Hscheme. unfold cleanBase64.
    assert (strip_prefix DATA_URL_PNG base64Image = None) as ->
      by exact (strip_prefix_longer "data:image/" "png;base64," _ Hscheme).
    assert (strip_prefix DATA_URL_JPEG base64Image = None) as ->
      by exact (strip_prefix_longer "data:image/" "jpeg;base64," _ Hscheme).
    assert (strip_prefix DATA_URL_JPG base64Image = None) as ->
      by exact (strip_prefix_longer "data:image/" "jpg;base64," _ Hscheme).
    done.
Qed.

Lemma assoc_set_field k v fields k' :
  assoc k' (set_field k v fields) = if String.eqb k' k then Some v else assoc k' fields.
Proof.
  induction fields as [|[k0 v0] fields IH]; simpl.
  - by destruct (String.eqb_spec k' k).
  - destruct (String.eqb_spec k k0) as [->|Hk]; simpl.
    + by destruct (String.eqb_spec k' k0).
    + destruct (String.eqb_spec k' k0) as [->|Hk0].
      * destruct (String.eqb_spec k0 k); [congruence|done].
      * apply IH.
Qed.

(** X2.  generateGuideForSuggestion resolves for a response whose text is a
    JSON object, with the object's property suggestionId set to the id of
    the suggestion: whatever suggestionId the response carried is replaced,
    every other property is kept, and when title, prerequisites and steps
    have their declared shapes the result reads as a DetailedGuide with
    that id.  It rejects when the response has no text or an empty one, when
    the text is not JSON, and when it denotes null, a boolean, a number or
    a string. *)
Theorem generateGuide_stamps_the_suggestion_id suggestion :
  (∀ fields, ∃ fields',
     generateGuideForSuggestion suggestion (response_of (JObj fields))
     = Resolved (StampedObject fields')
     ∧ assoc "suggestionId" fields' = Some (JStr (sug_id suggestion))
     ∧ (∀ k, k ≠ "suggestionId" → assoc k fields' = assoc k fields)
     ∧ (∀ t ps items ss,
          assoc "title" fields = Some (JStr t) →
          assoc "prerequisites" fields ≫= as_strings = Some ps →
          assoc "steps" fields = Some (JArr items) →
          mapM GuideStep_of_json items = Some ss →
          DetailedGuide_of_json (JObj fields')
          = Some {| suggestionId := sug_id suggestion; guide_title := t;
                    prerequisites := ps; steps := ss |}))
  ∧ (∀ response,
       generateGuideForSuggestion suggestion response = Rejected ↔
       match text response with
       | None => True
       | Some t =>
           match JSON_parse t with
           | None | Some JNull | Some (JBool _) | Some (JNum _) | Some (JStr _) => True
           | Some (JArr _) | Some (JObj _) => False
           end
       end).
Proof.
  split.
  - intros fields.
    exists (set_field "suggestionId" (JStr (sug_id suggestion)) fields).
    split; [done|]. split; [by rewrite assoc_set_field|]. split.
    + intros k Hk. rewrite assoc_set_field.
      destruct (String.eqb_spec k "suggestionId"); [done|done].
    + intros t ps items ss Ht Hps Hitems Hss.
      unfold DetailedGuide_of_json. simpl.
      rewrite !assoc_set_field. simpl.
      rewrite Ht. simpl. rewrite Hps. simpl. rewrite Hitems. simpl.
      by rewrite Hss.
  - intros [[[raw|v]|]]; unfold generateGuideForSuggestion; simpl.
    + by destruct raw.
    + by destruct v.
    + done.
Qed.

Lemma generateGuide_stamps_the_suggestion_id_witness :
  ∃ fields',
    generateGuideForSuggestion (suggestion "b" 90)
      (response_of (JObj [("suggestionId", JStr "made up");
                          ("title", JStr "Fill the form");
                          ("prerequisites", JArr []);
                          ("steps", JArr [])]))
    = Resolved (StampedObject fields')
    ∧ DetailedGuide_of_json (JObj fields')
      = Some {| suggestionId := "b"; guide_title := "Fill the form";
                prerequisites := []; steps := [] |}.
Proof.
  destruct (generateGuide_stamps_the_suggestion_id (suggestion "b" 90)) as [Hstamp _].
  destruct (Hstamp [("suggestionId", JStr "made up");
                    ("title", JStr "Fill the form");
                    ("prerequisites", JArr []);
                    ("steps", JArr [])])
    as (fields' & Hres & _ & _ & Hread).
  exists fields'. split; [exact Hres|].
  apply (Hread "Fill the form" [] [] []); reflexivity.
Defined.

(** ** Array.prototype.sort is stable *)

Section sort_stable.
Context {A : Type} (key : A → Z).

Lemma sort_insert_stable k x l l' :
  sort_insert (descending key) x l = Some l' →
  filter (λ a, key a = k) l' = filter (λ a, key a = k) (x :: l).
Proof.
  revert l'. induction l as [|y l IH]; simpl; intros l' H.
  - by injection H as <-.
  - destruct (Z.leb_spec (key y - key x) 0) as [Hle|Hgt].
    + by injection H as <-.
    + destruct (sort_insert (descending key) x l) as [l0|]; simpl in H; [|done].
      injection H as <-.
      rewrite (filter_cons _ y l0), (IH l0 eq_refl).
      rewrite !filter_cons.
      repeat case_decide; try done; lia.
Qed.

Lemma Array_sort_stable k l l' :
  Array_sort (descending key) l = Some l' →
  filter (λ a, key a = k) l' = filter (λ a, key a = k) l.
Proof.
  revert l'. induction l as [|x l IH]; simpl; intros l' H.
  - by injection H as <-.
  - destruct (Array_sort (descending key) l) as [l0|]; simpl in H; [|done].
    rewrite (sort_insert_stable k x l0 l' H).
    rewrite !filter_cons. by rewrite (IH l0 eq_refl).
Qed.
End sort_stable.

(** X3.  Suggestions of equal relevanceScore keep the order the response
    gave them: for every score, the suggestions with that score appear in
    the result of analyzeScreenImage in the same order as in the
    response. *)
Theorem analyze_keeps_the_order_of_ties f v l :
  suggestions_of_json v = Some l →
  ∃ results,
    suggestions_of_json (JArr (analyzeScreenImage f (response_of v))) = Some results
    ∧ ∀ score,
        filter (λ s, relevanceScore s = score) results
        = filter (λ s, relevanceScore s = score) l.
Proof.
  intros Hshape.
  destruct (analyze_of_suggestions f v l Hshape) as (results & Hsort & Hread).
  exists results. split; [exact Hread|].
  intros score. by apply Array_sort_stable.
Qed.

Lemma analyze_keeps_the_order_of_ties_witness :
  suggestions_of_json
    (JArr (AutomationSuggestion_to_json <$>
       [suggestion "a" 70; suggestion "b" 90; suggestion "c" 70]))
  = Some [suggestion "a" 70; suggestion "b" 90; suggestion "c" 70]
  ∧ ∃ results,
      suggestions_of_json
        (JArr (analyzeScreenImage (λ _, None)
           (response_of (JArr (AutomationSuggestion_to_json <$>
              [suggestion "a" 70; suggestion "b" 90; suggestion "c" 70])))))
      = Some results
      ∧ sug_id <$> results = ["b"; "a"; "c"].
Proof.
  assert (suggestions_of_json
            (JArr (AutomationSuggestion_to_json <$>
               [suggestion "a" 70; suggestion "b" 90; suggestion "c" 70]))
          = Some [suggestion "a" 70; suggestion "b" 90; suggestion "c" 70])
    as Hshape by reflexivity.
  split; [exact Hshape|].
  destruct (analyze_keeps_the_order_of_ties (λ _, None) _ _ Hshape)
    as (results & Hread & _).
  exists results. split; [exact Hread|].
  vm_compute in Hread. injection Hread as <-. reflexivity.
Defined.

(** ** storageService.ts *)

Lemma save_without_history c ls : holds_no_history ls → save c ls = ls.
Proof.
  unfold holds_no_history, save, saveGuideToHistory. intros Hbad.
  destruct (parse_existing (ls !! STORAGE_KEY)) as [v|]; simpl in *; [|done].
  by destruct (as_array v).
Qed.

(** X4.  A store whose history key holds something other than a history (a
    text that is not JSON, or the text of a JSON value that is not an
    array) is never written by a save: after any sequence of saves the
    store is what it was, and getHistory returns what it returned before. *)
Theorem saves_into_a_broken_store_are_dropped ls calls :
  holds_no_history ls →
  save_all calls ls = ls
  ∧ getHistory (save_all calls ls) = getHistory ls
  ∧ (parse_existing (ls !! STORAGE_KEY) = None → getHistory (save_all calls ls) = JArr []).
Proof.
  intros Hbad.
  assert (save_all calls ls = ls) as Hsame.
  { induction calls as [|c calls IH]; simpl; [done|].
    by rewrite (save_without_history c ls Hbad). }
  rewrite Hsame. split_and!; [done|done|].
  intros Hparse. unfold getHistory. by rewrite Hparse.
Qed.

Lemma saves_into_a_broken_store_are_dropped_witness :
  holds_no_history {[STORAGE_KEY := Malformed "not json"]}
  ∧ getHistory (save_all [sample_call 1; sample_call 2]
                  {[STORAGE_KEY := Malformed "not json"]}) = JArr [].
Proof.
  assert (holds_no_history {[STORAGE_KEY := Malformed "not json"]}) as Hbad
    by reflexivity.
  split; [exact Hbad|].
  destruct (saves_into_a_broken_store_are_dropped
              {[STORAGE_KEY := Malformed "not json"]}
              [sample_call 1; sample_call 2] Hbad) as (_ & _ & Hempty).
  apply Hempty. reflexivity.
Defined.

(** X5.  clearHistory makes any store usable again: whatever the store
    held, after clearHistory the history listed is empty, and the saves
    that follow are listed, latest first, up to 50. *)
Theorem clearHistory_then_saves ls calls :
  getHistory (clearHistory ls) = JArr []
  ∧ getHistory (save_all calls (clearHistory ls))
    = JArr (take 50 (reverse (stored <$> calls)))
  ∧ mapM HistoryItem_of_json (take 50 (reverse (stored <$> calls)))
    = Some (take 50 (reverse (saved_item <$> calls))).
Proof.
  pose proof (clearHistory_holds_history ls) as Hclear.
  split_and!.
  - by apply holds_history_getHistory.
  - rewrite <- (app_nil_r (reverse (stored <$> calls))).
    apply holds_history_getHistory.
    apply save_all_holds_history; [done|simpl; lia].
  - replace (stored <$> calls) with (HistoryItem_to_json <$> (saved_item <$> calls))
      by (by rewrite <- list_fmap_compose).
    rewrite <- fmap_reverse, <- fmap_take.
    apply HistoryItems_json_inv.
Qed.

Lemma save_other_keys c ls k : k ≠ STORAGE_KEY → save c ls !! k = ls !! k.
Proof.
  intros Hk. unfold save, saveGuideToHistory.
  destruct (parse_existing (ls !! STORAGE_KEY)) as [v|]; simpl; [|done].
  destruct (as_array v); simpl; [|done].
  by rewrite lookup_insert_ne.
Qed.

(** X6.  saveGuideToHistory and clearHistory touch no key of localStorage
    but their own: under any other key the store holds after any sequence
    of saves, and after clearHistory, what it held before. *)
Theorem history_service_keeps_other_keys ls calls k :
  k ≠ STORAGE_KEY →
  save_all calls ls !! k = ls !! k
  ∧ clearHistory ls !! k = ls !! k
  ∧ clearHistory (save_all calls ls) !! k = ls !! k.
Proof.
  intros Hk.
  assert (∀ ls0, save_all calls ls0 !! k = ls0 !! k) as Hsaves.
  { induction calls as [|c calls IH]; intros ls0; simpl; [done|].
    by rewrite IH, save_other_keys. }
  split_and!.
  - apply Hsaves.
  - unfold clearHistory. by rewrite lookup_delete_ne.
  - unfold clearHistory. by rewrite lookup_delete_ne, Hsaves.
Qed.

Lemma history_service_keeps_other_keys_witness :
  "theme" ≠ STORAGE_KEY
  ∧ save_all [sample_call 1] {["theme" := Malformed "dark"]} !! "theme"
    = Some (Malformed "dark").
Proof.
  assert ("theme" ≠ STORAGE_KEY) as Hk by discriminate.
  split; [exact Hk|].
  destruct (history_service_keeps_other_keys {["theme" := Malformed "dark"]}
              [sample_call 1] "theme" Hk) as (Hsame & _).
  rewrite Hsame. reflexivity.
Defined.

(** ** HistoryView.tsx *)

Lemma Array_sort_sorted_input {A} (key : A → Z) l :
  StronglySorted (not_below key) l → Array_sort (descending key) l = Some l.
Proof.
  induction 1 as [|x l Hl IH Hx]; simpl; [done|].
  rewrite IH. simpl. destruct l as [|y l]; simpl; [done|].
  apply Forall_cons in Hx as [Hxy _]. unfold not_below in Hxy.
  destruct (Z.leb_spec (key y - key x) 0); [done|lia].
Qed.

Lemma StronglySorted_reverse {A} (R : relation A) l :
  StronglySorted R l → StronglySorted (flip R) (reverse l).
Proof.
  induction 1 as [|x l Hl IH Hx]; [constructor|].
  rewrite reverse_cons. apply StronglySorted_app. split_and!.
  - intros x1 x2 Hx1 Hx2. apply list_elem_of_singleton in Hx2 as ->.
    apply elem_of_reverse_2 in Hx1. rewrite reverse_involutive in Hx1.
    rewrite Forall_forall in Hx.
    unfold flip. by apply Hx.
  - done.
  - repeat constructor.
Qed.

Lemma StronglySorted_take {A} (R : relation A) n l :
  StronglySorted R l → StronglySorted R (take n l).
Proof.
  intros Hl. rewrite <- (take_drop n l) in Hl. by apply StronglySorted_app_1_l in Hl.
Qed.

Lemma StronglySorted_weaken {A} (R1 R2 : relation A) l :
  (∀ a b, R1 a b → R2 a b) → StronglySorted R1 l → StronglySorted R2 l.
Proof.
  intros Himpl. induction 1 as [|x l Hl IH Hx]; constructor; [done|].
  eapply Forall_impl; [exact Hx|]. auto.
Qed.

Lemma by_timestamp_sorts sortOrder l :
  ∃ l', Array_sort (by_timestamp sortOrder) l = Some l'
        ∧ l' ≡ₚ l
        ∧ StronglySorted (in_order sortOrder) l'.
Proof.
  destruct sortOrder.
  - destruct (Array_sort_descending timestamp l) as (l' & Hsort & Hperm & Hsorted).
    by exists l'.
  - destruct (Array_sort_descending (λ i, - timestamp i)%Z l)
      as (l' & Hsort & Hperm & Hsorted).
    destruct (Array_sort_related eq (by_timestamp oldest)
                (descending (λ i, - timestamp i)%Z)) with (js := l) (ts := l) (ts' := l')
      as (l'' & Hsort' & Heq).
    + intros j1 t1 j2 t2 -> ->. unfold by_timestamp, descending. do 2 f_equal. lia.
    + by apply list_eq_Forall2.
    + done.
    + apply list_eq_Forall2 in Heq as ->.
      exists l'. split_and!; [done|done|].
      eapply StronglySorted_weaken; [|exact Hsorted].
      unfold not_below, in_order. intros a b. lia.
Qed.

Lemma includes_empty hay : includes EmptyString hay = true.
Proof. by destruct hay. Qed.

(** X7.  The records the history view shows are exactly the records of the
    loaded history that match the search, each as often as it is loaded,
    ordered by timestamp: not increasing for newest, not decreasing for
    oldest.  With an empty search term all loaded records are shown. *)
Theorem filteredItems_is_the_sorted_selection toLowerCase historyItems searchTerm sortOrder :
  filteredItems toLowerCase historyItems searchTerm sortOrder
  ≡ₚ filter (λ item, matches toLowerCase searchTerm item = true) historyItems
  ∧ StronglySorted (in_order sortOrder)
      (filteredItems toLowerCase historyItems searchTerm sortOrder)
  ∧ (∀ item, item ∈ filteredItems toLowerCase historyItems searchTerm sortOrder ↔
             matches toLowerCase searchTerm item = true ∧ item ∈ historyItems)
  ∧ (toLowerCase EmptyString = EmptyString →
     filteredItems toLowerCase historyItems EmptyString sortOrder ≡ₚ historyItems).
Proof.
  assert (∀ term, filteredItems toLowerCase historyItems term sortOrder
                  ≡ₚ filter (λ item, matches toLowerCase term item = true) historyItems
                  ∧ StronglySorted (in_order sortOrder)
                      (filteredItems toLowerCase historyItems term sortOrder)) as Hsorted.
  { intros term. unfold filteredItems.
    destruct (by_timestamp_sorts sortOrder
                (filter (λ item, matches toLowerCase term item = true) historyItems))
      as (l' & -> & Hperm & Hsorted). by simpl. }
  split_and!.
  - apply Hsorted.
  - apply Hsorted.
  - intros item. destruct (Hsorted searchTerm) as [Hperm _].
    rewrite Hperm.
    apply (list_elem_of_filter (λ i, matches toLowerCase searchTerm i = true)).
  - intros Hempty. destruct (Hsorted EmptyString) as [Hperm _]. rewrite Hperm.
    assert (filter (λ item, matches toLowerCase EmptyString item = true) historyItems
            = historyItems) as ->; [|done].
    clear Hsorted Hperm.
    induction historyItems as [|item items IH]; [done|].
    rewrite filter_cons, IH. case_decide as Hmatch; [done|].
    exfalso. apply Hmatch. unfold matches. by rewrite Hempty, includes_empty.
Qed.

Lemma filteredItems_is_the_sorted_selection_witness :
  toLowerCase_ascii EmptyString = EmptyString
  ∧ filteredItems toLowerCase_ascii (saved_item <$> [sample_call 3; sample_call 1; sample_call 2])
      EmptyString oldest
    ≡ₚ saved_item <$> [sample_call 3; sample_call 1; sample_call 2].
Proof.
  assert (toLowerCase_ascii EmptyString = EmptyString) as Hempty by reflexivity.
  split; [exact Hempty|].
  destruct (filteredItems_is_the_sorted_selection toLowerCase_ascii
              (saved_item <$> [sample_call 3; sample_call 1; sample_call 2])
              EmptyString oldest) as (_ & _ & _ & Hall).
  exact (Hall Hempty).
Defined.

(** X8.  When the guides are saved at times that do not go back, into a
    store whose history was empty, the history view with no search term and
    the order newest shows the records exactly in the order getHistory
    returns them: the last 50 saved, latest first. *)
Theorem history_view_shows_the_stored_order toLowerCase ls calls :
  toLowerCase EmptyString = EmptyString →
  holds_history ls [] →
  clock_does_not_go_back calls →
  ∃ items historyItems,
    getHistory (save_all calls ls) = JArr items
    ∧ mapM HistoryItem_of_json items = Some historyItems
    ∧ historyItems = take 50 (reverse (saved_item <$> calls))
    ∧ filteredItems toLowerCase historyItems EmptyString newest = historyItems.
Proof.
  intros Hempty Hold Hclock.
  exists (take 50 (reverse (stored <$> calls))), (take 50 (reverse (saved_item <$> calls))).
  split_and!.
  - rewrite <- (app_nil_r (reverse (stored <$> calls))).
    apply holds_history_getHistory.
    apply save_all_holds_history; [done|simpl; lia].
  - replace (stored <$> calls) with (HistoryItem_to_json <$> (saved_item <$> calls))
      by (by rewrite <- list_fmap_compose).
    rewrite <- fmap_reverse, <- fmap_take.
    apply HistoryItems_json_inv.
  - done.
  - assert (StronglySorted (not_below timestamp)
              (take 50 (reverse (saved_item <$> calls)))) as Hsorted.
    { assert (StronglySorted (λ a b, (timestamp a ≤ timestamp b)%Z)
                (saved_item <$> calls)) as Hup.
      { eapply StronglySorted_fmap; [|exact Hclock]. by intros x y. }
      apply StronglySorted_take.
      eapply StronglySorted_weaken; [|apply StronglySorted_reverse, Hup].
      by intros a b. }
    unfold filteredItems.
    assert (filter (λ item, matches toLowerCase EmptyString item = true)
              (take 50 (reverse (saved_item <$> calls)))
            = take 50 (reverse (saved_item <$> calls))) as ->.
    { induction (take 50 (reverse (saved_item <$> calls))) as [|item items IH]; [done|].
      rewrite filter_cons, IH.
      - case_decide as Hmatch; [done|].
        exfalso. apply Hmatch. unfold matches. by rewrite Hempty, includes_empty.
      - by apply StronglySorted_inv in Hsorted as [? _]. }
    change (by_timestamp newest) with (descending timestamp).
    by rewrite Array_sort_sorted_input.
Qed.

Lemma history_view_shows_the_stored_order_witness :
  toLowerCase_ascii EmptyString = EmptyString
  ∧ holds_history ∅ []
  ∧ clock_does_not_go_back [sample_call 1; sample_call 1; sample_call 2]
  ∧ ∃ historyItems,
      historyItems = take 50 (reverse (saved_item <$>
                        [sample_call 1; sample_call 1; sample_call 2]))
      ∧ filteredItems toLowerCase_ascii historyItems EmptyString newest = historyItems.
Proof.
  assert (toLowerCase_ascii EmptyString = EmptyString) as Hempty by reflexivity.
  assert (holds_history ∅ []) as Hold by reflexivity.
  assert (clock_does_not_go_back [sample_call 1; sample_call 1; sample_call 2]) as Hclock.
  { unfold clock_does_not_go_back. repeat constructor; simpl; lia. }
  split; [exact Hempty|]. split; [exact Hold|]. split; [exact Hclock|].
  destruct (history_view_shows_the_stored_order toLowerCase_ascii ∅
              [sample_call 1; sample_call 1; sample_call 2] Hempty Hold Hclock)
    as (items & historyItems & _ & _ & Hitems & Hshown).
  exists historyItems. split; [exact Hitems|exact Hshown].
Defined.

Lemma NoDup_fmap_eq {A B} (f : A → B) l x y :
  NoDup (f <$> l) → x ∈ l → y ∈ l → f x = f y → x = y.
Proof.
  induction l as [|a l IH]; intros Hnodup Hx Hy Heq; [by apply elem_of_nil in Hx|].
  rewrite fmap_cons in Hnodup. apply NoDup_cons in Hnodup as [Ha Hl].
  apply elem_of_cons in Hx as [->|Hx]; apply elem_of_cons in Hy as [->|Hy].
  - done.
  - exfalso. apply Ha. rewrite Heq. by apply list_elem_of_fmap_2.
  - exfalso. apply Ha. rewrite <- Heq. by apply list_elem_of_fmap_2.
  - by apply IH.
Qed.

(** X9.  When no two loaded records have the same timestamp, switching the
    sort order reverses the list shown: the list for oldest is the list for
    newest read backwards. *)
Theorem switching_the_sort_order_reverses toLowerCase historyItems searchTerm :
  NoDup (timestamp <$> historyItems) →
  filteredItems toLowerCase historyItems searchTerm oldest
  = reverse (filteredItems toLowerCase historyItems searchTerm newest).
Proof.
  intros Hdistinct.
  pose (selection := filter (λ item, matches toLowerCase searchTerm item = true) historyItems).
  unfold filteredItems. fold selection.
  destruct (by_timestamp_sorts oldest selection) as (up & -> & Hup_perm & Hup_sorted).
  destruct (by_timestamp_sorts newest selection) as (down & -> & Hdown_perm & Hdown_sorted).
  simpl.
  apply (StronglySorted_unique_strong (in_order oldest)).
  - intros x1 x2 Hx1 Hx2 H12 H21. simpl in H12, H21.
    rewrite Hup_perm in Hx1.
    rewrite reverse_Permutation, Hdown_perm in Hx2.
    apply list_elem_of_filter in Hx1 as [_ Hx1].
    apply list_elem_of_filter in Hx2 as [_ Hx2].
    apply (NoDup_fmap_eq timestamp historyItems); [done|done|done|lia].
  - done.
  - eapply StronglySorted_weaken; [|apply StronglySorted_reverse, Hdown_sorted].
    by intros a b.
  - by rewrite Hup_perm, reverse_Permutation, Hdown_perm.
Qed.

Lemma switching_the_sort_order_reverses_witness :
  NoDup (timestamp <$> (saved_item <$> [sample_call 3; sample_call 1; sample_call 2]))
  ∧ filteredItems toLowerCase_ascii
      (saved_item <$> [sample_call 3; sample_call 1; sample_call 2]) "form" oldest
    = reverse (filteredItems toLowerCase_ascii
                 (saved_item <$> [sample_call 3; sample_call 1; sample_call 2])
                 "form" newest).
Proof.
  assert (NoDup (timestamp <$> (saved_item <$>
            [sample_call 3; sample_call 1; sample_call 2]))) as Hdistinct.
  { simpl. repeat constructor; set_solver. }
  split; [exact Hdistinct|].
  apply (switching_the_sort_order_reverses toLowerCase_ascii
           (saved_item <$> [sample_call 3; sample_call 1; sample_call 2]) "form" Hdistinct).
Defined.

(** ** App.tsx *)

Lemma capture_consistent_mount ls : capture_consistent (initialWorld ls).
Proof. unfold capture_consistent. simpl. split_and!; intros; done. Qed.

Local Ltac capture_cases :=
  repeat first [ case_bool_decide | case_match ]; simplify_eq/=;
  split_and!; intros; simplify_eq/=; try done; eauto; try set_solver.

Lemma capture_consistent_react w e :
  capture_consistent w → enabled e w = true → capture_consistent (react e w).
Proof.
  intros (Hauto & Hlive & Hidle & Hhist & Hprev) Hen.
  destruct e;
    destruct w as [[st0 str0 sugs0 sel0 err0 img0 prev0 auto0 flag0] tasks0 ls0 live0];
    unfold capture_consistent in *; simpl in *.
  - unfold startScreenShare. capture_cases.
  - unfold handleStopStream, hasContent. capture_cases.
  - unfold handleStopStream, hasContent. capture_cases.
  - unfold handleReset. capture_cases.
  - unfold actionBarLive in Hen. capture_cases.
  - unfold captureAndAnalyze. capture_cases.
  - unfold captureAndAnalyze. capture_cases.
  - unfold handleSelectSuggestion. capture_cases.
  - unfold handleBackToSuggestions. capture_cases.
  - unfold handleToggleHistory. capture_cases.
  - unfold handleSelectHistoryGuide. capture_cases.
  - capture_cases.
  - unfold displayMediaSettled. capture_cases.
  - unfold analyzeSettled. capture_cases.
  - unfold autoGuideSettled, guideSettled. capture_cases.
Qed.

Lemma reachable_capture_consistent w : reachable w → capture_consistent w.
Proof.
  induction 1 as [ls|w e _ IH Hen].
  - apply capture_consistent_mount.
  - by apply capture_consistent_react.
Qed.

(** X10.  In every world the component can be in, the state remembered for
    closing the history is not HISTORY: the history is never opened over
    itself, so closing it always returns to the remembered state and the
    fall-back to IDLE is never taken. *)
Theorem history_closes_to_the_remembered_state w :
  reachable w →
  previousState (ui w) ≠ HISTORY
  ∧ (appState (ui w) = HISTORY →
     appState (ui (handleToggleHistory w)) = previousState (ui w)
     ∧ appState (ui (handleToggleHistory w)) ≠ HISTORY).
Proof.
  intros Hreach.
  destruct (reachable_capture_consistent w Hreach) as (_ & _ & _ & _ & Hprev).
  split; [done|]. intros Hstate.
  rewrite (handleToggleHistory_close w Hstate). simpl.
  by rewrite (bool_decide_eq_true_2 _ Hprev).
Qed.

Lemma history_closes_to_the_remembered_state_witness :
  reachable (world_after (scan_to_guide ++ [ClickHistory]))
  ∧ appState (ui (world_after (scan_to_guide ++ [ClickHistory]))) = HISTORY
  ∧ appState (ui (handleToggleHistory (world_after (scan_to_guide ++ [ClickHistory]))))
    = VIEWING_GUIDE.
Proof.
  assert (appState (ui (world_after (scan_to_guide ++ [ClickHistory]))) = HISTORY)
    as Hstate by (vm_compute; reflexivity).
  split; [apply reachable_world_after|]. split; [exact Hstate|].
  destruct (history_closes_to_the_remembered_state
              (world_after (scan_to_guide ++ [ClickHistory]))
              (reachable_world_after _)) as (_ & Hclose).
  destruct (Hclose Hstate) as [-> _]. vm_compute. reflexivity.
Defined.

(** X11.  In every world the component can be in: auto-scan is on only
    while a stream is held; a stream that is held has its tracks running;
    on the start page (IDLE) no stream is held and auto-scan is off; and the
    auto-scan interval is set exactly when auto-scan is on and the state is
    RECORDING or SUGGESTING. *)
Theorem capture_and_auto_scan_fit_together w :
  reachable w →
  (isAutoScan (ui w) = true → is_Some (stream (ui w)))
  ∧ (∀ h, stream (ui w) = Some h → h ∈ liveTracks w)
  ∧ (appState (ui w) = IDLE → stream (ui w) = None ∧ isAutoScan (ui w) = false)
  ∧ (is_Some (autoScanInterval (ui w)) ↔
     isAutoScan (ui w) = true
     ∧ (appState (ui w) = RECORDING ∨ appState (ui w) = SUGGESTING)).
Proof.
  intros Hreach.
  destruct (reachable_capture_consistent w Hreach) as (Hauto & Hlive & Hidle & _ & _).
  split_and!.
  - exact Hauto.
  - exact Hlive.
  - intros Hstate. split; [by apply Hidle|].
    destruct (isAutoScan (ui w)) eqn:Hon; [|done].
    rewrite (Hidle Hstate) in Hauto. by destruct (Hauto eq_refl).
  - split.
    + intros [ms Hms]. apply autoScanInterval_armed in Hms as (_ & ? & _ & ?). done.
    + intros [Hon Hpassive]. exists 5000%Z. apply autoScanInterval_armed. auto.
Qed.

Lemma capture_and_auto_scan_fit_together_witness :
  reachable (world_after select_during_auto_scan)
  ∧ isAutoScan (ui (world_after select_during_auto_scan)) = true
  ∧ is_Some (stream (ui (world_after select_during_auto_scan))).
Proof.
  split; [apply reachable_world_after|].
  assert (isAutoScan (ui (world_after select_during_auto_scan)) = true) as Hon
    by (vm_compute; reflexivity).
  split; [exact Hon|].
  destruct (capture_and_auto_scan_fit_together (world_after select_during_auto_scan)
              (reachable_world_after _)) as (Hauto & _).
  exact (Hauto Hon).
Defined.

Lemma loading_awaits_a_guide_mount ls : loading_awaits_a_guide (initialWorld ls).
Proof. split; intros; done. Qed.

Local Ltac loading_cases :=
  repeat first [ case_bool_decide | case_match ]; simplify_eq/=;
  rewrite ?count_tasks_snoc; simpl;
  split; intros; simplify_eq/=; rewrite ?Nat.add_0_r; try done; try lia; eauto.

Lemma loading_awaits_a_guide_react w e :
  loading_awaits_a_guide w → enabled e w = true → loading_awaits_a_guide (react e w).
Proof.
  intros [Hload Hhist] Hen.
  destruct e;
    destruct w as [[st0 str0 sugs0 sel0 err0 img0 prev0 auto0 flag0] tasks0 ls0 live0];
    unfold loading_awaits_a_guide, guidesOutstanding in *; simpl in *.
  - unfold startScreenShare. loading_cases.
  - unfold handleStopStream, hasContent. loading_cases.
  - unfold handleStopStream, hasContent. loading_cases.
  - unfold handleReset. loading_cases.
  - loading_cases.
  - unfold captureAndAnalyze. loading_cases.
  - unfold captureAndAnalyze. loading_cases.
  - unfold handleSelectSuggestion. loading_cases.
  - unfold handleBackToSuggestions. loading_cases.
  - unfold handleToggleHistory. loading_cases.
  - unfold handleSelectHistoryGuide. loading_cases.
  - loading_cases.
  - destruct (tasks0 !! i) as [[autoStart| | |]|] eqn:Hi; try done.
    pose proof (count_tasks_delete isGuideTask _ _ _ Hi) as Hcount. simpl in Hcount.
    rewrite Nat.add_0_r in Hcount. rewrite Hcount in Hload, Hhist.
    unfold displayMediaSettled. loading_cases.
  - destruct (tasks0 !! i) as [[|isAuto appState0 img| |]|] eqn:Hi; try done.
    pose proof (count_tasks_delete isGuideTask _ _ _ Hi) as Hcount. simpl in Hcount.
    rewrite Nat.add_0_r in Hcount. rewrite Hcount in Hload, Hhist.
    unfold analyzeSettled. loading_cases.
  - destruct (tasks0 !! i) as [[| |best img|sug img]|] eqn:Hi; try done.
    + unfold autoGuideSettled. loading_cases.
    + unfold guideSettled. loading_cases.
Qed.

Lemma reachable_loading_awaits_a_guide w : reachable w → loading_awaits_a_guide w.
Proof.
  induction 1 as [ls|w e _ IH Hen].
  - apply loading_awaits_a_guide_mount.
  - by apply loading_awaits_a_guide_react.
Qed.

(** X12.  In every world the component can be in, the state GUIDE_LOADING
    is shown only while an elaboration is outstanding, and the settlement
    of any outstanding elaboration, resolved or rejected, leaves the state
    VIEWING_GUIDE or SUGGESTING: the spinner of GUIDE_LOADING ends with the
    call it waits for. *)
Theorem guide_loading_waits_for_an_elaboration w :
  reachable w →
  (appState (ui w) = GUIDE_LOADING →
   0 < guidesOutstanding w
   ∧ ∃ i, ∀ r uuid now, enabled (GuideSettled i r uuid now) w = true)
  ∧ (∀ i r uuid now,
       enabled (GuideSettled i r uuid now) w = true →
       appState (ui (react (GuideSettled i r uuid now) w)) = VIEWING_GUIDE
       ∨ appState (ui (react (GuideSettled i r uuid now) w)) = SUGGESTING).
Proof.
  intros Hreach.
  destruct (reachable_loading_awaits_a_guide w Hreach) as [Hload _].
  split.
  - intros Hstate. pose proof (Hload Hstate) as Hsome. split; [done|].
    unfold guidesOutstanding, count_tasks in Hsome.
    destruct (filter (λ t, isGuideTask t = true) (pending w)) as [|t ts] eqn:Hfilter;
      [simpl in Hsome; lia|].
    assert (t ∈ filter (λ t, isGuideTask t = true) (pending w)) as Ht
      by (rewrite Hfilter; left).
    apply list_elem_of_filter in Ht as [Hguide Ht].
    apply list_elem_of_lookup in Ht as [i Hi].
    exists i. intros r uuid now. simpl. rewrite Hi. by destruct t.
  - intros i r uuid now Hen. simpl in *.
    destruct (pending w !! i) as [[| |best img|sug img]|]; try done.
    + unfold autoGuideSettled. destruct r; simpl; auto.
    + unfold guideSettled. destruct r; simpl; auto.
Qed.

Lemma guide_loading_waits_for_an_elaboration_witness :
  reachable (world_after (take 4 scan_to_guide))
  ∧ appState (ui (world_after (take 4 scan_to_guide))) = GUIDE_LOADING
  ∧ 0 < guidesOutstanding (world_after (take 4 scan_to_guide)).
Proof.
  assert (appState (ui (world_after (take 4 scan_to_guide))) = GUIDE_LOADING) as Hstate
    by (vm_compute; reflexivity).
  split; [apply reachable_world_after|]. split; [exact Hstate|].
  destruct (guide_loading_waits_for_an_elaboration (world_after (take 4 scan_to_guide))
              (reachable_world_after _)) as (Hload & _).
  destruct (Hload Hstate) as [Hsome _]. exact Hsome.
Defined.

(** X13.  When the canvas gives no 2d context, an auto scan changes
    nothing, but a manual scan that was accepted leaves the state ANALYZING
    with the in-flight flag clear and no call issued: nothing is
    outstanding that would end the state, the Scan button stays disabled
    and the auto-scan interval is not set. *)
Theorem scan_without_canvas_context w :
  enabled (ClickScan None) w = true →
  appState (ui (react (ClickScan None) w)) = ANALYZING
  ∧ isAnalyzing (ui (react (ClickScan None) w)) = false
  ∧ pending (react (ClickScan None) w) = pending w
  ∧ lastImage (ui (react (ClickScan None) w)) = lastImage (ui w)
  ∧ errorMsg (ui (react (ClickScan None) w)) = errorMsg (ui w)
  ∧ (∀ frame, enabled (ClickScan frame) (react (ClickScan None) w) = false)
  ∧ autoScanInterval (ui (react (ClickScan None) w)) = None
  ∧ react (TimerTick None) w = w.
Proof.
  intros Hen. simpl in Hen.
  apply andb_true_iff in Hen as [Hbar Hfree].
  unfold scanDisabled in Hfree. rewrite !negb_orb in Hfree.
  apply andb_true_iff in Hfree as [_ Hflag]. apply negb_true_iff in Hflag.
  assert (videoMounted (ui w) = true) as Hvideo by exact Hbar.
  simpl. unfold captureAndAnalyze. rewrite Hvideo, Hflag. simpl.
  split_and!; try done.
  - intros frame. unfold scanDisabled. simpl. by rewrite andb_false_r.
  - unfold autoScanInterval. simpl. by rewrite andb_false_r.
  - by destruct w as [[] ? ? ?]; simpl in *; subst.
Qed.

Lemma scan_without_canvas_context_witness :
  enabled (ClickScan None) (displayMediaSettled false (Granted 1) (initialWorld ∅)) = true
  ∧ appState (ui (react (ClickScan None)
                    (displayMediaSettled false (Granted 1) (initialWorld ∅)))) = ANALYZING
  ∧ pending (react (ClickScan None)
               (displayMediaSettled false (Granted 1) (initialWorld ∅))) = [].
Proof.
  assert (enabled (ClickScan None)
            (displayMediaSettled false (Granted 1) (initialWorld ∅)) = true) as Hen
    by reflexivity.
  split; [exact Hen|].
  destruct (scan_without_canvas_context
              (displayMediaSettled false (Granted 1) (initialWorld ∅)) Hen)
    as (Hstate & _ & Hpending & _).
  split; [exact Hstate|]. rewrite Hpending. reflexivity.
Defined.

(** X14.  handleReset returns to the start page (IDLE, no stream, no
    suggestions, no guide, no image, auto-scan off) but cancels nothing
    and clears no message: the calls that are outstanding, the in-flight
    flag, the error message and the store stay.  So an elaboration that
    resolves after the reset still selects its guide and shows it, with no
    stream held, and an analysis that resolves after the reset still
    becomes the suggestion list. *)
Theorem reset_does_not_cancel w :
  appState (ui (handleReset w)) = IDLE
  ∧ stream (ui (handleReset w)) = None
  ∧ suggestions (ui (handleReset w)) = []
  ∧ selectedGuide (ui (handleReset w)) = None
  ∧ lastImage (ui (handleReset w)) = None
  ∧ isAutoScan (ui (handleReset w)) = false
  ∧ pending (handleReset w) = pending w
  ∧ isAnalyzing (ui (handleReset w)) = isAnalyzing (ui w)
  ∧ errorMsg (ui (handleReset w)) = errorMsg (ui w)
  ∧ localStorage (handleReset w) = localStorage w
  ∧ (∀ i g uuid now,
       enabled (GuideSettled i (Resolved g) uuid now) w = true →
       enabled (GuideSettled i (Resolved g) uuid now) (handleReset w) = true
       ∧ appState (ui (react (GuideSettled i (Resolved g) uuid now) (handleReset w)))
         = VIEWING_GUIDE
       ∧ selectedGuide (ui (react (GuideSettled i (Resolved g) uuid now) (handleReset w)))
         = Some g
       ∧ stream (ui (react (GuideSettled i (Resolved g) uuid now) (handleReset w)))
         = None)
  ∧ (∀ i results,
       enabled (AnalyzeSettled i (Resolved results)) w = true →
       suggestions (ui (react (AnalyzeSettled i (Resolved results)) (handleReset w)))
       = results).
Proof.
  assert (pending (handleReset w) = pending w) as Hpending
    by (unfold handleReset; by destruct (stream (ui w))).
  assert (stream (ui (handleReset w)) = None) as Hstream
    by (unfold handleReset; destruct (stream (ui w)) eqn:Hs; simpl; done).
  split_and!; try done; try (unfold handleReset; by destruct (stream (ui w))).
  - intros i g uuid now Hen. simpl in *. rewrite Hpending.
    destruct (pending w !! i) as [[| |best img|sug img]|]; try done;
      unfold autoGuideSettled, guideSettled; simpl; done.
  - intros i results Hen. simpl in *. rewrite Hpending.
    destruct (pending w !! i) as [[|isAuto appState0 img| |]|]; try done.
    unfold analyzeSettled. destruct isAuto; simpl.
    + by destruct (_ && _).
    + by destruct results.
Qed.

Lemma reset_does_not_cancel_witness :
  enabled (GuideSettled 0 (Resolved sample_guide) "uuid 1" 1%Z)
    (world_after (take 4 scan_to_guide ++ [ClickStop])) = true
  ∧ appState (ui (react (GuideSettled 0 (Resolved sample_guide) "uuid 1" 1%Z)
                    (handleReset (world_after (take 4 scan_to_guide ++ [ClickStop])))))
    = VIEWING_GUIDE.
Proof.
  assert (enabled (GuideSettled 0 (Resolved sample_guide) "uuid 1" 1%Z)
            (world_after (take 4 scan_to_guide ++ [ClickStop])) = true) as Hen
    by (vm_compute; reflexivity).
  split; [exact Hen|].
  destruct (reset_does_not_cancel (world_after (take 4 scan_to_guide ++ [ClickStop])))
    as (_ & _ & _ & _ & _ & _ & _ & _ & _ & _ & Hlate & _).
  destruct (Hlate 0 sample_guide "uuid 1" 1%Z Hen) as (_ & Hstate & _).
  exact Hstate.
Defined.

(** X15.  When an elaboration resolves, from a manual scan or from a
    selected suggestion, its guide is selected and the state becomes
    VIEWING_GUIDE whatever the store holds.  If the store holds a history,
    the first record getHistory then lists reads back as this guide with
    the id and the time the environment gave; if the store holds no
    history, the store is left as it is and the guide is shown all the
    same.  A rejected elaboration never writes the store. *)
Theorem resolved_guide_is_shown_and_saved w i g uuid now :
  (∃ s img, pending w !! i = Some (AwaitAutoGuide s img)
            ∨ pending w !! i = Some (AwaitGuide s img)) →
  appState (ui (react (GuideSettled i (Resolved g) uuid now) w)) = VIEWING_GUIDE
  ∧ selectedGuide (ui (react (GuideSettled i (Resolved g) uuid now) w)) = Some g
  ∧ suggestions (ui (react (GuideSettled i (Resolved g) uuid now) w)) = suggestions (ui w)
  ∧ (∀ old, holds_history (localStorage w) old →
       ∃ first rest,
         getHistory (localStorage (react (GuideSettled i (Resolved g) uuid now) w))
         = JArr (first :: rest)
         ∧ HistoryItem_of_json first
           = Some {| item_id := uuid; guide := g; timestamp := now |}
         ∧ rest = take 49 old)
  ∧ (holds_no_history (localStorage w) →
       localStorage (react (GuideSettled i (Resolved g) uuid now) w) = localStorage w)
  ∧ localStorage (react (GuideSettled i Rejected uuid now) w) = localStorage w.
Proof.
  intros (s & img & Hi).
  assert (localStorage (react (GuideSettled i (Resolved g) uuid now) w)
          = save {| call_uuid := uuid; call_now := now; call_guide := g |} (localStorage w))
    as Hstore.
  { simpl. by destruct Hi as [-> | ->]. }
  split_and!.
  - simpl. by destruct Hi as [-> | ->].
  - simpl. by destruct Hi as [-> | ->].
  - simpl. by destruct Hi as [-> | ->].
  - intros old Hold. rewrite Hstore.
    exists (stored {| call_uuid := uuid; call_now := now; call_guide := g |}), (take 49 old).
    split_and!.
    + apply holds_history_getHistory.
      by apply (save_holds_history {| call_uuid := uuid; call_now := now; call_guide := g |})
        in Hold.
    + apply (HistoryItem_json_inv {| item_id := uuid; guide := g; timestamp := now |}).
    + done.
  - intros Hbad. rewrite Hstore. by apply save_without_history.
  - simpl. by destruct Hi as [-> | ->].
Qed.

Lemma resolved_guide_is_shown_and_saved_witness :
  (∃ s img,
     pending (world_after (take 4 scan_to_guide)) !! 0 = Some (AwaitAutoGuide s img)
     ∨ pending (world_after (take 4 scan_to_guide)) !! 0 = Some (AwaitGuide s img))
  ∧ selectedGuide (ui (react (GuideSettled 0 (Resolved sample_guide) "uuid 1" 1%Z)
                         (world_after (take 4 scan_to_guide)))) = Some sample_guide.
Proof.
  assert (∃ s img,
     pending (world_after (take 4 scan_to_guide)) !! 0 = Some (AwaitAutoGuide s img)
     ∨ pending (world_after (take 4 scan_to_guide)) !! 0 = Some (AwaitGuide s img))
    as Hpending.
  { exists (suggestion "a" 90), "frame 1". left. vm_compute. reflexivity. }
  split; [exact Hpending|].
  destruct (resolved_guide_is_shown_and_saved (world_after (take 4 scan_to_guide)) 0
              sample_guide "uuid 1" 1%Z Hpending) as (_ & Hguide & _).
  exact Hguide.
Defined.

(** ** GuideView: Copy Guide *)















